(** * dgraph-service/install-schema.py

    A shallow embedding of the schema installer script: the construction of
    the mutation payload (a template substitution followed by a chain of
    [str.replace] calls) and the two bounded loops around [requests.post].

    Python strings are sequences of Unicode code points; they are modelled as
    lists of code points.  The HTTP endpoint, the clock and standard output
    are modelled by an error monad over a world that records every POST,
    sleep and print in order. *)

From Stdlib Require Import List NArith PeanoNat Bool Lia String Ascii.
From Stdlib Require DecimalString.
Import ListNotations.

Set Warnings "-register-all".

(** ** Python strings *)

Module PyStr.

Definition codepoint := N.
Definition str := list codepoint.

Definition NL : codepoint := 10%N.
Definition TAB : codepoint := 9%N.
Definition SP : codepoint := 32%N.
Definition DQUOTE : codepoint := 34%N.

(** A string literal of the source, as code points. *)
Definition lit (s : string) : str := map N_of_ascii (list_ascii_of_string s).

Fixpoint str_eqb (a b : str) : bool :=
  match a, b with
  | [], [] => true
  | x :: a', y :: b' => N.eqb x y && str_eqb a' b'
  | _, _ => false
  end.

(** [s.startswith(p)] *)
Fixpoint starts_with (p s : str) : bool :=
  match p, s with
  | [], _ => true
  | _ :: _, [] => false
  | a :: p', b :: s' => N.eqb a b && starts_with p' s'
  end.

(** [p in s] for two strings: [p] occurs in [s] as a contiguous run. *)
Fixpoint contains (p s : str) : bool :=
  match s with
  | [] => starts_with p []
  | _ :: s' => starts_with p s || contains p s'
  end.

(** The scan of [str.replace] for a non-empty [old]: left to right, each
    occurrence found is replaced and the scan resumes after it, so the
    occurrences replaced do not overlap.  [skip] counts the characters of the
    occurrence just replaced that are still to be passed over. *)
Fixpoint replace_from (old new : str) (skip : nat) (s : str) : str :=
  match s with
  | [] => []
  | c :: s' =>
      match skip with
      | S k => replace_from old new k s'
      | O =>
          if starts_with old s
          then new ++ replace_from old new (List.length old - 1) s'
          else c :: replace_from old new 0 s'
      end
  end.

(** [s.replace(old, new)].  With an empty [old] Python puts [new] before
    every character and at the end. *)
Definition replace (old new s : str) : str :=
  match old with
  | [] => new ++ flat_map (fun c => c :: new) s
  | _ :: _ => replace_from old new 0 s
  end.

(** [str(i)] for a non-negative integer. *)
Definition str_of_nat (i : nat) : str :=
  lit (DecimalString.NilEmpty.string_of_uint (Nat.to_uint i)).

End PyStr.

Import PyStr.

(** ** Building the mutation payload (lines 6-22) *)

Definition line (s : string) : str := lit s ++ [NL].

(** The triple-quoted template of lines 6-16. *)
Definition template : str :=
  line "mutation {" ++
  line "  updateGQLSchema(" ++
  lit "    input: { set: { schema: " ++ [DQUOTE] ++ lit "$my_schema" ++
    [DQUOTE] ++ line "}})" ++
  line "  {" ++
  line "    gqlSchema {" ++
  line "      schema" ++
  line "      generatedSchema" ++
  line "    }" ++
  line "  }" ++
  line "}".

(** Line 21: [mutation.replace("$my_schema", schema)]. *)
Definition substitute (schema : str) : str :=
  replace (lit "$my_schema") schema template.

(** Line 22:
    [.replace('\n', '').replace('  ', ' ').replace('\t', ' ').replace('  ', ' ')]. *)
Definition collapse_ws (s : str) : str :=
  replace [SP; SP] [SP]
    (replace [TAB] [SP]
       (replace [SP; SP] [SP]
          (replace [NL] [] s))).

Definition buildMutation (schema : str) : str :=
  collapse_ws (substitute schema).

(** ** JSON bodies, responses and exceptions *)

(** What [r.json()] decodes to.  Numbers keep the text of their literal: the
    script never computes with them.  An object is its members in order. *)
Inductive json : Type :=
| JNull
| JBool (b : bool)
| JNum (literal : str)
| JStr (s : str)
| JArr (items : list json)
| JObj (members : list (str * json)).

(** A [requests.Response]: only the status shown by [print(r)] and the result
    of [r.json()] are observed; [None] is a body that does not decode. *)
Record Response : Type := { status_code : nat; decoded : option json }.

Inductive exn : Type :=
| ConnectionError   (* requests.exceptions.ConnectionError and subclasses *)
| RequestException  (* any other exception raised by requests.post *)
| NameError
| JSONDecodeError
| TypeError
| OSError.

Definition exn_eqb (a b : exn) : bool :=
  match a, b with
  | ConnectionError, ConnectionError
  | RequestException, RequestException
  | NameError, NameError
  | JSONDecodeError, JSONDecodeError
  | TypeError, TypeError
  | OSError, OSError => true
  | _, _ => false
  end.

Definition json_is_str (k : str) (j : json) : bool :=
  match j with
  | JStr s => str_eqb s k
  | _ => false
  end.

(** [k in m] on a decoded body: key membership on a dict, element equality
    on a list, substring on a string, [TypeError] on anything else. *)
Definition py_in (k : str) (m : json) : exn + bool :=
  match m with
  | JObj members => inr (existsb (fun kv => str_eqb (fst kv) k) members)
  | JArr items => inr (existsb (json_is_str k) items)
  | JStr s => inr (contains k s)
  | JNull | JBool _ | JNum _ => inl TypeError
  end.

(** ** The world: endpoint, clock and standard output *)

Inductive printed : Type :=
| PStr (s : str)
| PResponse (r : Response)
| PJson (j : json).

Inductive event : Type :=
| Post (url query : str)
| Sleep (seconds : nat)
| Print (x : printed).

(** [sent] counts the POSTs issued so far; [log] is every effect in order. *)
Record world : Type := { sent : nat; log : list event }.

(** What the endpoint does with one POST, when the call of requests.post
    returns or raises.  The script passes no timeout: a call that never
    returns is not modelled. *)
Inductive reply : Type :=
| Accept (r : Response)
| Refuse   (* the connection fails: ConnectionError *)
| Fail.    (* requests.post raises something else *)

Inductive outcome (A : Type) : Type :=
| Ok (a : A)
| Raise (e : exn).
Arguments Ok {A} a.
Arguments Raise {A} e.

Definition M (A : Type) : Type := world -> outcome A * world.

Definition ret {A} (a : A) : M A := fun w => (Ok a, w).

Definition bind {A B} (m : M A) (k : A -> M B) : M B :=
  fun w =>
    match m w with
    | (Ok a, w') => k a w'
    | (Raise e, w') => (Raise e, w')
    end.

Definition raise {A} (e : exn) : M A := fun w => (Raise e, w).

Declare Scope py_scope.
Delimit Scope py_scope with py.
Notation "x <- m ;; k" := (bind m (fun x => k))
  (at level 61, m at next level, right associativity) : py_scope.
Notation "m ;; k" := (bind m (fun _ => k))
  (at level 61, right associativity) : py_scope.
Open Scope py_scope.

(** [try: m  except e: h] *)
Definition try_except {A} (m : M A) (e : exn) (h : M A) : M A :=
  fun w =>
    match m w with
    | (Raise e', w') => if exn_eqb e' e then h w' else (Raise e', w')
    | ok => ok
    end.

Definition emit (e : event) : M unit :=
  fun w => (Ok tt, {| sent := sent w; log := log w ++ [e] |}).

Definition print (x : printed) : M unit := emit (Print x).
Definition sleep (seconds : nat) : M unit := emit (Sleep seconds).

(** [for i in l: s = body(i, s)] *)
Fixpoint for_each {S} (l : list nat) (body : nat -> S -> M S) (s : S) : M S :=
  match l with
  | [] => ret s
  | i :: l' => s' <- body i s ;; for_each l' body s'
  end.

(** [for i in range(lo, hi)] *)
Definition for_range {S} (lo hi : nat) (body : nat -> S -> M S) (s : S) : M S :=
  for_each (seq lo (hi - lo)) body s.

Definition url : str := lit "http://localhost:8080/admin".

(** ** The script *)

Section Script.

(** The reply of the endpoint to the n-th POST of the run, counted from 0,
    and the content of cardano-schema.gql ([None]: it cannot be opened). *)
Variable server : nat -> reply.
Variable schema_file : option str.

(** [requests.post(url, json={"query": query})] *)
Definition post (query : str) : M Response :=
  fun w =>
    let w' := {| sent := S (sent w); log := log w ++ [Post url query] |} in
    match server (sent w) with
    | Accept r => (Ok r, w')
    | Refuse => (Raise ConnectionError, w')
    | Fail => (Raise RequestException, w')
    end.

(** Lines 17-18. *)
Definition read_schema : M str :=
  match schema_file with
  | Some text => ret text
  | None => raise OSError
  end.

(** Reading the variable [r]: unbound until a POST has returned. *)
Definition load (r : option Response) : M Response :=
  match r with
  | Some resp => ret resp
  | None => raise NameError
  end.

(** [r.json()] *)
Definition json_of (resp : Response) : M json :=
  match decoded resp with
  | Some j => ret j
  | None => raise JSONDecodeError
  end.

Definition test_in (k : str) (m : json) : M bool :=
  match py_in k m with
  | inr b => ret b
  | inl e => raise e
  end.

(** Lines 26-30, the body of the first loop; the state is the variable [r]. *)
Definition connect_step (mutation : str) (i : nat) (r : option Response)
  : M (option Response) :=
  try_except
    (resp <- post mutation ;; ret (Some resp))
    ConnectionError
    (sleep 1 ;; print (PStr (lit "Waiting for connection")) ;; ret r).

(** Lines 25-30. *)
Definition connection_loop (mutation : str) : M (option Response) :=
  for_range 0 15 (connect_step mutation) None.

(** Lines 35-38, the body of the second loop.  [message] is assigned once, on
    line 32, and never inside the loop. *)
Definition poll_step (mutation : str) (message : json) (i : nat)
    (r : option Response) : M (option Response) :=
  b <- test_in (lit "errors") message ;;
  if b then
    resp <- post mutation ;;
    print (PStr (lit "Waiting for db to be ready ... " ++ str_of_nat i)) ;;
    sleep 3 ;;
    ret (Some resp)
  else ret r.

(** Lines 34-38. *)
Definition polling_loop (mutation : str) (message : json)
    (r : option Response) : M (option Response) :=
  for_range 0 15 (poll_step mutation message) r.

(** Lines 41-42. *)
Definition report (r : option Response) : M unit :=
  resp <- load r ;;
  print (PResponse resp) ;;
  j <- json_of resp ;;
  print (PJson j).

Definition script : M unit :=
  schema <- read_schema ;;
  let mutation := buildMutation schema in
  print (PStr mutation) ;;
  r <- connection_loop mutation ;;
  resp <- load r ;;
  message <- json_of resp ;;
  r <- polling_loop mutation message r ;;
  report r.

Definition run : outcome unit * world := script {| sent := 0; log := [] |}.

End Script.

(** ** Observations on a run *)

Definition is_post (e : event) : bool :=
  match e with Post _ _ => true | _ => false end.

Definition is_sleep (d : nat) (e : event) : bool :=
  match e with Sleep n => Nat.eqb n d | _ => false end.

Definition is_wait (e : event) : bool :=
  match e with Sleep _ => true | _ => false end.

(** Number of calls of [requests.post] in a log, answered or not. *)
Definition count_posts (l : list event) : nat := List.length (filter is_post l).

(** Number of sleeps of [d] seconds in a log. *)
Definition count_sleeps (d : nat) (l : list event) : nat :=
  List.length (filter (is_sleep d) l).

(** Number of sleeps of any duration in a log. *)
Definition count_waits (l : list event) : nat := List.length (filter is_wait l).

(** The final report: what lines 41-42 print. *)
Definition reports (l : list event) : list printed :=
  flat_map (fun e => match e with
                     | Print (PResponse r) => [PResponse r]
                     | Print (PJson j) => [PJson j]
                     | _ => []
                     end) l.

(** The body is an object with the key [k]. *)
Definition has_key (k : str) (j : json) : bool :=
  match j with
  | JObj members => existsb (fun kv => str_eqb (fst kv) k) members
  | _ => false
  end.

Definition is_object (j : json) : bool :=
  match j with JObj _ => true | _ => false end.

(** The events of one iteration of the first loop, by the endpoint's reply. *)
Definition connect_events (query : str) (rep : reply) : list event :=
  match rep with
  | Accept _ => [Post url query]
  | _ => [Post url query; Sleep 1; Print (PStr (lit "Waiting for connection"))]
  end.

(** The events of iteration [i] of the second loop when it re-POSTs. *)
Definition poll_events (query : str) (i : nat) : list event :=
  [Post url query;
   Print (PStr (lit "Waiting for db to be ready ... " ++ str_of_nat i));
   Sleep 3].

(** The value of [r] after POSTs number [start] to [start + n - 1], none of
    which fails otherwise than by a refused connection: the last response
    accepted, or the value before when there is none. *)
Definition latest (server : nat -> reply) (r : option Response)
    (start n : nat) : option Response :=
  fold_left (fun acc k => match server k with
                          | Accept resp => Some resp
                          | _ => acc
                          end) (seq start n) r.

(** The first loop ends with [resp] in [r]: no POST of the fifteen fails
    otherwise than by a refused connection, and [resp] is the reply to the
    last one accepted. *)
Definition connects_with (server : nat -> reply) (resp : Response) : Prop :=
  (forall n, n < 15 -> server n <> Fail) /\
  exists k, k < 15 /\ server k = Accept resp /\
            forall j, k < j < 15 -> server j = Refuse.

(** The world when the first loop has run to its end. *)
Definition world_connected (server : nat -> reply) (query : str) : world :=
  {| sent := 15;
     log := Print (PStr query) ::
            flat_map (fun k => connect_events query (server k)) (seq 0 15) |}.

(** Two bodies of the admin endpoint: the schema is installed, or the
    database is not ready. *)
Definition body_installed : json :=
  JObj [(lit "gqlSchema",
         JObj [(lit "schema", JStr (lit "type Block"))])].

Definition body_errors : json :=
  JObj [(lit "errors", JArr [JObj [(lit "message", JStr (lit "not ready"))]])].

Definition response_installed : Response :=
  {| status_code := 200; decoded := Some body_installed |}.

Definition response_errors : Response :=
  {| status_code := 200; decoded := Some body_errors |}.

(** An endpoint that accepts every connection and answers that the schema is
    installed. *)
Definition server_ready : nat -> reply := fun _ => Accept response_installed.

(** An endpoint that accepts every connection and answers with errors to the
    first [t] POSTs, and that the schema is installed from then on. *)
Definition server_errors_until (t : nat) : nat -> reply :=
  fun n => if Nat.ltb n t then Accept response_errors
           else Accept response_installed.

(** An endpoint that is never reachable. *)
Definition server_down : nat -> reply := fun _ => Refuse.

(** An endpoint that answers with errors and refuses the POST number [t]. *)
Definition server_drops_at (t : nat) : nat -> reply :=
  fun n => if Nat.eqb n t then Refuse else Accept response_errors.

(** No two adjacent spaces. *)
Fixpoint no_double_space (s : str) : bool :=
  match s with
  | [] => true
  | a :: t =>
      match t with
      | [] => true
      | b :: _ => negb (N.eqb SP a && N.eqb SP b) && no_double_space t
      end
  end.

Definition mem (c : codepoint) (s : str) : bool := existsb (N.eqb c) s.

(** Free of newlines, tabs and doubled spaces. *)
Definition ws_clean (s : str) : bool :=
  negb (mem NL s) && negb (mem TAB s) && no_double_space s.

(** The template on either side of the placeholder. *)
Definition template_head : str :=
  line "mutation {" ++
  line "  updateGQLSchema(" ++
  lit "    input: { set: { schema: ".

Definition template_tail : str :=
  line "}})" ++
  line "  {" ++
  line "    gqlSchema {" ++
  line "      schema" ++
  line "      generatedSchema" ++
  line "    }" ++
  line "  }" ++
  line "}".

(** The payload on either side of the schema text. *)
Definition payload_head : str :=
  lit "mutation { updateGQLSchema( input: { set: { schema: " ++ [DQUOTE].

Definition payload_tail : str :=
  [DQUOTE] ++ lit "}}) { gqlSchema {  schema  generatedSchema } }}".

(** A schema file of three lines. *)
Definition schema_three_lines : str :=
  line "type Block {" ++ line "  hash: String! @id" ++ line "}".

(** The same schema on one line. *)
Definition schema_one_line : str := lit "type Block { hash: String! @id }".

(** ** Further observations *)

(** The characters the replace chain of line 22 acts on. *)
Definition is_ws (c : codepoint) : bool :=
  N.eqb NL c || N.eqb TAB c || N.eqb SP c.

(** A string without its newlines, tabs and spaces. *)
Definition non_ws (s : str) : str := filter (fun c => negb (is_ws c)) s.

(** Seconds slept in a log. *)
Fixpoint sleep_seconds (l : list event) : nat :=
  match l with
  | [] => 0
  | Sleep n :: l' => n + sleep_seconds l'
  | _ :: l' => sleep_seconds l'
  end.

(** Every POST of a log goes to the admin URL with the query [q]. *)
Definition posts_only (q : str) (l : list event) : Prop :=
  forall u q', In (Post u q') l -> u = url /\ q' = q.

Definition is_refuse (rep : reply) : bool :=
  match rep with Refuse => true | _ => false end.

(** Number of refused connections among POSTs [start] to [start + n - 1]. *)
Definition refusals (server : nat -> reply) (start n : nat) : nat :=
  List.length (filter (fun k => is_refuse (server k)) (seq start n)).

(** A reply whose body is not JSON. *)
Definition response_html : Response :=
  {| status_code := 502; decoded := None |}.

(** An endpoint that refuses its first [t] connections and then answers
    that the schema is installed. *)
Definition server_refuses_first (t : nat) : nat -> reply :=
  fun n => if Nat.ltb n t then Refuse else Accept response_installed.

(** An endpoint on which the POST number [t] raises an exception that is no
    connection error, the others being answered with errors. *)
Definition server_fails_at (t : nat) : nat -> reply :=
  fun n => if Nat.eqb n t then Fail else Accept response_errors.

(** An endpoint that answers every POST with the same response. *)
Definition server_always (resp : Response) : nat -> reply :=
  fun _ => Accept resp.

(** An endpoint that answers with errors, and from POST number [t] on with a
    body that is not JSON. *)
Definition server_breaks_at (t : nat) : nat -> reply :=
  fun n => if Nat.ltb n t then Accept response_errors
           else Accept response_html.

(** A decoded body on which Python's [in] is defined: a str, a list or a
    dict. *)
Definition is_container (j : json) : bool :=
  match j with
  | JStr _ | JArr _ | JObj _ => true
  | JNull | JBool _ | JNum _ => false
  end.

(** The ways a run with a readable schema file can end, each with the result
    and the world it ends in: by an exception of a POST of the first loop
    that is no connection error; with [r] unbound on line 32; with a body that
    does not decode on line 32; with a body that [in] cannot test on line 35;
    normally without any re-POST; by a refused re-POST; by another exception
    of a re-POST; with a last body that does not decode on line 42; normally
    after fifteen re-POSTs. *)
Inductive ending (server : nat -> reply) (q : str)
  : outcome unit -> world -> Prop :=
| EndFailed (k : nat) :
    k < 15 -> (forall j, j < k -> server j <> Fail) -> server k = Fail ->
    ending server q (Raise RequestException)
      {| sent := k + 1;
         log := Print (PStr q) ::
                flat_map (fun n => connect_events q (server n)) (seq 0 k) ++
                [Post url q] |}
| EndUnbound :
    (forall k, k < 15 -> server k = Refuse) ->
    ending server q (Raise NameError) (world_connected server q)
| EndUndecodable (resp : Response) :
    connects_with server resp -> decoded resp = None ->
    ending server q (Raise JSONDecodeError) (world_connected server q)
| EndTypeError (resp : Response) (message : json) (e : exn) :
    connects_with server resp -> decoded resp = Some message ->
    py_in (lit "errors") message = inl e ->
    ending server q (Raise e) (world_connected server q)
| EndQuiet (resp : Response) (message : json) :
    connects_with server resp -> decoded resp = Some message ->
    py_in (lit "errors") message = inr false ->
    ending server q (Ok tt)
      {| sent := 15;
         log := log (world_connected server q) ++
                [Print (PResponse resp); Print (PJson message)] |}
| EndDropped (resp : Response) (message : json) (k : nat) :
    connects_with server resp -> decoded resp = Some message ->
    py_in (lit "errors") message = inr true ->
    k < 15 ->
    (forall j, j < k -> exists r', server (15 + j) = Accept r') ->
    server (15 + k) = Refuse ->
    ending server q (Raise ConnectionError)
      {| sent := 15 + k + 1;
         log := log (world_connected server q) ++
                flat_map (poll_events q) (seq 0 k) ++ [Post url q] |}
| EndPollFailed (resp : Response) (message : json) (k : nat) :
    connects_with server resp -> decoded resp = Some message ->
    py_in (lit "errors") message = inr true ->
    k < 15 ->
    (forall j, j < k -> exists r', server (15 + j) = Accept r') ->
    server (15 + k) = Fail ->
    ending server q (Raise RequestException)
      {| sent := 15 + k + 1;
         log := log (world_connected server q) ++
                flat_map (poll_events q) (seq 0 k) ++ [Post url q] |}
| EndReportUndecodable (resp : Response) (message : json)
    (resp' : Response) :
    connects_with server resp -> decoded resp = Some message ->
    py_in (lit "errors") message = inr true ->
    (forall k, k < 15 -> exists r', server (15 + k) = Accept r') ->
    server 29 = Accept resp' -> decoded resp' = None ->
    ending server q (Raise JSONDecodeError)
      {| sent := 30;
         log := log (world_connected server q) ++
                flat_map (poll_events q) (seq 0 15) ++
                [Print (PResponse resp')] |}
| EndBusy (resp : Response) (message : json) (resp' : Response)
    (body' : json) :
    connects_with server resp -> decoded resp = Some message ->
    py_in (lit "errors") message = inr true ->
    (forall k, k < 15 -> exists r', server (15 + k) = Accept r') ->
    server 29 = Accept resp' -> decoded resp' = Some body' ->
    ending server q (Ok tt)
      {| sent := 30;
         log := log (world_connected server q) ++
                flat_map (poll_events q) (seq 0 15) ++
                [Print (PResponse resp'); Print (PJson body')] |}.

(** An endpoint that refuses fourteen connections and answers with errors
    from then on. *)
Definition server_slowest : nat -> reply :=
  fun n => if Nat.ltb n 14 then Refuse else Accept response_errors.

(** * Theorems *)

(** ** Sanity checks of the embedding on concrete inputs *)

Example str_of_nat_14 : str_of_nat 14 = lit "14".
Proof. reflexivity. Qed.

Example replace_nonoverlapping :
  replace (lit "aa") (lit "b") (lit "aaa") = lit "ba".
Proof. reflexivity. Qed.

Example replace_empty_old :
  replace [] (lit "-") (lit "abc") = lit "-a-b-c-".
Proof. reflexivity. Qed.

Example buildMutation_x :
  buildMutation (lit "x") =
  lit "mutation { updateGQLSchema( input: { set: { schema: " ++ [DQUOTE] ++
  lit "x" ++ [DQUOTE] ++
  lit "}}) { gqlSchema {  schema  generatedSchema } }}".
Proof. vm_compute. reflexivity. Qed.

(** ** The replace chain *)

Section ReplaceChain.

(** Replacing a one-character pattern acts on each character on its own. *)
Lemma replace_single (c : codepoint) (new s : str) :
  replace [c] new s = flat_map (fun x => if N.eqb c x then new else [x]) s.
Proof.
  unfold replace. induction s as [|a s IH]; [reflexivity|].
  cbn [replace_from starts_with List.length flat_map Nat.sub].
  destruct s; rewrite andb_true_r; destruct (N.eqb c a);
    cbn [app]; now rewrite <- ?IH.
Qed.

Lemma substitute_split (schema : str) :
  substitute schema =
  template_head ++ DQUOTE :: schema ++ DQUOTE :: template_tail.
Proof. reflexivity. Qed.

Local Abbreviation squeeze := (replace [SP; SP] [SP]).

Lemma str_ind2 (P : str -> Prop) :
  P [] -> (forall a, P [a]) ->
  (forall a b s, P s -> P (b :: s) -> P (a :: b :: s)) ->
  forall s, P s.
Proof.
  intros H0 H1 H2 s.
  assert (H : P s /\ forall a, P (a :: s)).
  { induction s as [|b s [IHs IHc]]; split; auto. }
  apply H.
Qed.

Lemma squeeze_one (a : codepoint) : squeeze [a] = [a].
Proof.
  unfold replace. cbn [replace_from starts_with].
  now rewrite andb_false_r.
Qed.

Lemma squeeze_pair (a b : codepoint) (s : str) :
  N.eqb SP a && N.eqb SP b = true ->
  squeeze (a :: b :: s) = SP :: squeeze s.
Proof.
  intros H. unfold replace.
  cbn [replace_from starts_with List.length Nat.sub app].
  rewrite andb_true_r, H. reflexivity.
Qed.

Lemma squeeze_other (a b : codepoint) (s : str) :
  N.eqb SP a && N.eqb SP b = false ->
  squeeze (a :: b :: s) = a :: squeeze (b :: s).
Proof.
  intros H. unfold replace.
  cbn [replace_from starts_with List.length Nat.sub app].
  rewrite andb_true_r. now rewrite H.
Qed.

Lemma squeeze_cons_other (c : codepoint) (s : str) :
  N.eqb SP c = false -> squeeze (c :: s) = c :: squeeze s.
Proof.
  intros H. destruct s as [|b s].
  - apply squeeze_one.
  - apply squeeze_other. now rewrite H.
Qed.

(** A character other than a space cuts the scan for doubled spaces. *)
Lemma squeeze_app_sep (x : str) (c : codepoint) (y : str) :
  N.eqb SP c = false ->
  squeeze (x ++ c :: y) = squeeze x ++ c :: squeeze y.
Proof.
  intros Hc. induction x as [|a|a b x IH1 IH2] using str_ind2.
  - now apply squeeze_cons_other.
  - cbn [app]. rewrite squeeze_one, squeeze_other.
    + now rewrite squeeze_cons_other.
    + now rewrite Hc, andb_false_r.
  - cbn [app] in *. destruct (N.eqb SP a && N.eqb SP b) eqn:E.
    + rewrite !(squeeze_pair _ _ _ E), IH1. reflexivity.
    + rewrite !(squeeze_other _ _ _ E), IH2. reflexivity.
Qed.

Lemma squeeze_clean (s : str) :
  no_double_space s = true -> squeeze s = s.
Proof.
  induction s as [|a t IH]; [reflexivity|].
  destruct t as [|b t]; [intros _; apply squeeze_one|].
  cbn [no_double_space]. intros H.
  apply andb_true_iff in H as [H1 H2].
  apply negb_true_iff in H1.
  rewrite (squeeze_other _ _ _ H1), (IH H2). reflexivity.
Qed.

Lemma squeeze_In (x : codepoint) (s : str) :
  In x (squeeze s) -> In x s.
Proof.
  induction s as [|a|a b s IH1 IH2] using str_ind2.
  - auto.
  - now rewrite squeeze_one.
  - destruct (N.eqb SP a && N.eqb SP b) eqn:E.
    + rewrite (squeeze_pair _ _ _ E).
      apply andb_true_iff in E as [Ea _]. apply N.eqb_eq in Ea.
      intros [H|H]; [left; congruence | right; right; auto].
    + rewrite (squeeze_other _ _ _ E).
      intros [H|H]; [left; auto | right; auto].
Qed.

Lemma mem_false (c : codepoint) (s : str) :
  mem c s = false <-> ~ In c s.
Proof.
  unfold mem. split.
  - intros H Hin. assert (existsb (N.eqb c) s = true); [|congruence].
    apply existsb_exists. exists c. split; [auto | apply N.eqb_refl].
  - intros H. destruct (existsb (N.eqb c) s) eqn:E; [|reflexivity].
    apply existsb_exists in E as (y & Hy & Ey). apply N.eqb_eq in Ey.
    subst. contradiction.
Qed.

(** Replacing a character that does not occur changes nothing. *)
Lemma replace_single_absent (c : codepoint) (new s : str) :
  mem c s = false -> replace [c] new s = s.
Proof.
  rewrite replace_single. unfold mem.
  induction s as [|a s IH]; [reflexivity|].
  cbn [existsb flat_map]. intros H. apply orb_false_iff in H as [H1 H2].
  rewrite H1, (IH H2). reflexivity.
Qed.

Lemma replace_single_app (c : codepoint) (new x y : str) :
  replace [c] new (x ++ y) = replace [c] new x ++ replace [c] new y.
Proof. rewrite !replace_single. apply flat_map_app. Qed.

Lemma replace_single_cons_other (c a : codepoint) (new s : str) :
  N.eqb c a = false -> replace [c] new (a :: s) = a :: replace [c] new s.
Proof.
  intros H. rewrite !replace_single. cbn [flat_map]. now rewrite H.
Qed.

Lemma replace_single_cons_same (c : codepoint) (new s : str) :
  replace [c] new (c :: s) = new ++ replace [c] new s.
Proof.
  rewrite !replace_single. cbn [flat_map]. now rewrite N.eqb_refl.
Qed.

(** The character replaced is gone, unless the replacement brings it back. *)
Lemma replace_single_removes (c : codepoint) (new s : str) :
  ~ In c new -> ~ In c (replace [c] new s).
Proof.
  intros Hnew. rewrite replace_single. intros H.
  apply in_flat_map in H as (a & _ & Ha).
  destruct (N.eqb c a) eqn:E; [contradiction|].
  destruct Ha as [Ha|[]]. subst. now rewrite N.eqb_refl in E.
Qed.

Lemma replace_single_In (x c : codepoint) (new s : str) :
  In x (replace [c] new s) -> In x new \/ In x s.
Proof.
  rewrite replace_single. intros H.
  apply in_flat_map in H as (a & Ha & Hx).
  destruct (N.eqb c a); [left; auto|].
  destruct Hx as [Hx|[]]. subst. right; auto.
Qed.

(** A character that is not whitespace cuts the whole chain. *)
Lemma collapse_ws_app_sep (x : str) (c : codepoint) (y : str) :
  N.eqb NL c = false -> N.eqb TAB c = false -> N.eqb SP c = false ->
  collapse_ws (x ++ c :: y) = collapse_ws x ++ c :: collapse_ws y.
Proof.
  intros Hn Ht Hs. unfold collapse_ws.
  rewrite replace_single_app, (replace_single_cons_other _ _ _ _ Hn).
  rewrite (squeeze_app_sep _ _ _ Hs).
  rewrite replace_single_app, (replace_single_cons_other _ _ _ _ Ht).
  rewrite (squeeze_app_sep _ _ _ Hs).
  reflexivity.
Qed.

Lemma collapse_ws_clean (s : str) :
  ws_clean s = true -> collapse_ws s = s.
Proof.
  unfold ws_clean, collapse_ws. intros H.
  apply andb_true_iff in H as [H Hd]. apply andb_true_iff in H as [Hn Ht].
  apply negb_true_iff in Hn, Ht.
  rewrite (replace_single_absent _ _ _ Hn), (squeeze_clean _ Hd).
  rewrite (replace_single_absent _ _ _ Ht), (squeeze_clean _ Hd).
  reflexivity.
Qed.

End ReplaceChain.

(** ** The payload *)

Lemma starts_with_app (p s : str) : starts_with p (p ++ s) = true.
Proof.
  induction p as [|a p IH]; [reflexivity|].
  cbn [app starts_with]. now rewrite N.eqb_refl, IH.
Qed.

Lemma contains_app (p x y : str) : contains p (x ++ p ++ y) = true.
Proof.
  induction x as [|a x IH].
  - cbn [app]. destruct (p ++ y) eqn:E.
    + destruct p; [reflexivity | discriminate].
    + cbn [contains]. rewrite <- E, starts_with_app. reflexivity.
  - cbn [app contains]. rewrite IH. apply orb_true_r.
Qed.

Lemma buildMutation_clean (schema : str) :
  ws_clean schema = true ->
  buildMutation schema = payload_head ++ schema ++ payload_tail.
Proof.
  intros H. unfold buildMutation. rewrite substitute_split.
  rewrite collapse_ws_app_sep by reflexivity.
  change (DQUOTE :: template_tail) with ([] ++ DQUOTE :: template_tail).
  rewrite app_assoc, app_nil_r.
  rewrite collapse_ws_app_sep by reflexivity.
  rewrite (collapse_ws_clean _ H).
  change (collapse_ws template_head ++ [DQUOTE]) with payload_head.
  change (DQUOTE :: collapse_ws template_tail) with payload_tail.
  unfold payload_head. rewrite <- app_assoc. reflexivity.
Qed.

(** C4, as stated, fails: a schema text with newlines is not embedded
    verbatim, the payload holds it with its newlines deleted and its doubled
    spaces squeezed. *)
Lemma buildMutation_not_verbatim :
  contains schema_three_lines (buildMutation schema_three_lines) = false /\
  buildMutation schema_three_lines =
    payload_head ++ lit "type Block { hash: String! @id}" ++ payload_tail.
Proof. split; vm_compute; reflexivity. Qed.

(** C4 (amended): buildMutation is a function of the schema text alone, and
    for every schema text free of newlines, tabs and doubled spaces the
    payload is the fixed head, the schema text unchanged, and the fixed tail:
    the text is embedded verbatim. *)
Theorem buildMutation_embeds_clean_schema (schema : str) :
  ws_clean schema = true ->
  (forall schema', schema' = schema ->
     buildMutation schema' = buildMutation schema) /\
  buildMutation schema = payload_head ++ schema ++ payload_tail /\
  contains schema (buildMutation schema) = true.
Proof.
  intros H. split; [now intros ? -> |].
  rewrite (buildMutation_clean _ H). split; [reflexivity|].
  apply contains_app.
Qed.

Lemma buildMutation_embeds_clean_schema_witness :
  ws_clean schema_one_line = true /\
  buildMutation schema_one_line =
    payload_head ++ schema_one_line ++ payload_tail.
Proof.
  split; [reflexivity|].
  apply (buildMutation_embeds_clean_schema schema_one_line). reflexivity.
Defined.

(** C5, as stated, fails: a newline between two letters leaves no space
    behind, the letters end up adjacent. *)
Lemma collapse_ws_newline_is_not_space :
  collapse_ws (lit "a" ++ NL :: lit "b") = lit "ab" /\
  collapse_ws (lit "a" ++ NL :: lit "b") <>
    collapse_ws (lit "a" ++ SP :: lit "b").
Proof. split; [reflexivity | vm_compute; discriminate]. Qed.

(** A newline leaves nothing behind, and neither newline nor tab is left in
    the output. *)
Lemma collapse_ws_newline_tab_free :
  (forall x y : str, collapse_ws (x ++ NL :: y) = collapse_ws (x ++ y)) /\
  (forall s : str,
     mem NL (collapse_ws s) = false /\ mem TAB (collapse_ws s) = false /\
     forall c, In c (collapse_ws s) -> c = SP \/ In c s).
Proof.
  split.
  - intros x y. unfold collapse_ws.
    rewrite !replace_single_app, replace_single_cons_same. reflexivity.
  - intros s. unfold collapse_ws. repeat split.
    + apply mem_false. intros H. apply squeeze_In in H.
      apply replace_single_In in H as [[H|[]]|H]; [discriminate|].
      apply squeeze_In in H. revert H. apply replace_single_removes. auto.
    + apply mem_false. intros H. apply squeeze_In in H.
      revert H. apply replace_single_removes. intros [H|[]]. discriminate.
    + intros c H. apply squeeze_In in H.
      apply replace_single_In in H as [[H|[]]|H]; [left; auto|].
      apply squeeze_In in H.
      apply replace_single_In in H as [[]|H]. right; auto.
Qed.

(** C7: on a string free of newlines, tabs and doubled spaces the
    whitespace-collapsing step is the identity, so applying it again changes
    nothing; and it is no full normalization: some run of three or more
    spaces leaves two adjacent spaces in the output. *)
Theorem collapse_ws_fixed_on_clean_not_normalizing :
  (forall s : str, ws_clean s = true ->
     collapse_ws s = s /\ collapse_ws (collapse_ws s) = collapse_ws s) /\
  (exists s : str,
     contains [SP; SP; SP] s = true /\
     contains [SP; SP] (collapse_ws s) = true).
Proof.
  split.
  - intros s H. rewrite !(collapse_ws_clean _ H). auto.
  - exists (lit "a     b"). split; reflexivity.
Qed.

Lemma collapse_ws_fixed_on_clean_not_normalizing_witness :
  ws_clean schema_one_line = true /\
  collapse_ws schema_one_line = schema_one_line /\
  collapse_ws (collapse_ws schema_one_line) = collapse_ws schema_one_line.
Proof.
  split; [reflexivity|].
  apply (proj1 collapse_ws_fixed_on_clean_not_normalizing schema_one_line).
  reflexivity.
Defined.

(** ** Counting in logs *)

Lemma count_posts_app (l1 l2 : list event) :
  count_posts (l1 ++ l2) = count_posts l1 + count_posts l2.
Proof. unfold count_posts. now rewrite filter_app, length_app. Qed.

Lemma count_sleeps_app (d : nat) (l1 l2 : list event) :
  count_sleeps d (l1 ++ l2) = count_sleeps d l1 + count_sleeps d l2.
Proof. unfold count_sleeps. now rewrite filter_app, length_app. Qed.

Lemma count_waits_app (l1 l2 : list event) :
  count_waits (l1 ++ l2) = count_waits l1 + count_waits l2.
Proof. unfold count_waits. now rewrite filter_app, length_app. Qed.

Lemma reports_app (l1 l2 : list event) :
  reports (l1 ++ l2) = reports l1 ++ reports l2.
Proof. apply flat_map_app. Qed.

Lemma count_flat_map (p : event -> bool) (f : nat -> list event)
    (l : list nat) (c : nat) :
  (forall k, In k l -> List.length (filter p (f k)) = c) ->
  List.length (filter p (flat_map f l)) = List.length l * c.
Proof.
  induction l as [|k l IH]; intros H; [reflexivity|].
  cbn [flat_map List.length Nat.mul].
  rewrite filter_app, length_app, (H k), IH; auto using in_eq, in_cons.
Qed.

Lemma reports_flat_map (f : nat -> list event) (l : list nat) :
  (forall k, In k l -> reports (f k) = []) -> reports (flat_map f l) = [].
Proof.
  induction l as [|k l IH]; intros H; [reflexivity|].
  cbn [flat_map]. rewrite reports_app, (H k), IH; auto using in_eq, in_cons.
Qed.

(** ** The two loops *)

Section Loops.

Variable server : nat -> reply.
Variable q : str.

Lemma bind_ok {A B} (m : M A) (k : A -> M B) (w w' : world) (a : A) :
  m w = (Ok a, w') -> bind m k w = k a w'.
Proof. unfold bind. now intros ->. Qed.

Lemma bind_raise {A B} (m : M A) (k : A -> M B) (w w' : world) (e : exn) :
  m w = (Raise e, w') -> bind m k w = (Raise e, w').
Proof. unfold bind. now intros ->. Qed.

Lemma for_each_app {St} (l1 l2 : list nat) (body : nat -> St -> M St)
    (s : St) (w : world) :
  for_each (l1 ++ l2) body s w =
  bind (for_each l1 body s) (for_each l2 body) w.
Proof.
  revert s w. induction l1 as [|i l1 IH]; intros s w; [reflexivity|].
  cbn [List.app for_each]. unfold bind in *.
  destruct (body i s w) as [[s'|e] w']; [apply IH | reflexivity].
Qed.

Lemma latest_S (r : option Response) (start n : nat) :
  latest server r start (S n) =
  match server (start + n) with
  | Accept resp => Some resp
  | _ => latest server r start n
  end.
Proof. unfold latest. now rewrite seq_S, fold_left_app. Qed.

Lemma latest_cons (r : option Response) (start n : nat) :
  latest server r start (S n) =
  latest server (match server start with
                 | Accept resp => Some resp
                 | _ => r
                 end) (S start) n.
Proof. reflexivity. Qed.

(** [latest] is the reply to the last POST accepted, when the others in the
    range are refused. *)
Lemma latest_spec (start n : nat) (resp : Response) :
  (forall k, k < n -> server (start + k) <> Fail) ->
  latest server None start n = Some resp <->
  exists k, k < n /\ server (start + k) = Accept resp /\
            forall j, k < j < n -> server (start + j) = Refuse.
Proof.
  induction n as [|n IH]; intros Hf.
  - split; [discriminate | intros (k & Hk & _); lia].
  - rewrite latest_S. specialize (Hf n (Nat.lt_succ_diag_r n)) as Hn.
    destruct (server (start + n)) as [r'| |] eqn:E; [| |contradiction].
    + split.
      * intros [= ->]. exists n. repeat split; [lia | auto | intros; lia].
      * intros (k & Hk & Ek & Hj).
        destruct (Nat.eq_dec k n) as [->|Hne]; [congruence|].
        rewrite (Hj n) in E by lia. discriminate.
    + rewrite IH by (intros; apply Hf; lia). split.
      * intros (k & Hk & Ek & Hj). exists k. repeat split; [lia | auto |].
        intros j Hlt. destruct (Nat.eq_dec j n) as [->|Hne]; [auto|].
        apply Hj. lia.
      * intros (k & Hk & Ek & Hj).
        assert (k <> n) by (intros ->; congruence).
        exists k. repeat split; [lia | auto | intros; apply Hj; lia].
Qed.

Lemma latest_all_accepted (r : option Response) (start n : nat)
    (resp : Response) :
  server (start + n) = Accept resp -> latest server r start (S n) = Some resp.
Proof. intros H. now rewrite latest_S, H. Qed.

Lemma connect_step_spec (i : nat) (r : option Response) (w : world) :
  server (sent w) <> Fail ->
  connect_step server q i r w =
  (Ok match server (sent w) with Accept resp => Some resp | _ => r end,
   {| sent := S (sent w);
      log := log w ++ connect_events q (server (sent w)) |}).
Proof.
  intros H. unfold connect_step, try_except, bind, post, sleep, print, emit, ret.
  destruct (server (sent w)); [reflexivity | | contradiction].
  cbn. now rewrite <- !app_assoc.
Qed.

Lemma connect_loop_spec (l : list nat) (r : option Response) (w : world) :
  (forall k, k < List.length l -> server (sent w + k) <> Fail) ->
  for_each l (connect_step server q) r w =
  (Ok (latest server r (sent w) (List.length l)),
   {| sent := sent w + List.length l;
      log := log w ++ flat_map (fun k => connect_events q (server k))
                               (seq (sent w) (List.length l)) |}).
Proof.
  revert r w. induction l as [|i l IH]; intros r w H.
  - cbn. rewrite Nat.add_0_r, app_nil_r. now destruct w.
  - cbn [for_each List.length].
    assert (H0 : server (sent w) <> Fail).
    { specialize (H 0 (Nat.lt_0_succ _)). now rewrite Nat.add_0_r in H. }
    rewrite (bind_ok _ _ _ _ _ (connect_step_spec i r w H0)).
    rewrite IH.
    + cbn [sent log seq flat_map]. rewrite latest_cons, <- app_assoc.
      do 2 f_equal. lia.
    + intros k Hk. cbn [sent].
      replace (S (sent w) + k) with (sent w + S k) by lia.
      apply H. cbn [List.length]. lia.
Qed.

(** The first loop: fifteen POSTs whatever the replies. *)
Lemma connection_loop_spec (w : world) :
  (forall k, k < 15 -> server (sent w + k) <> Fail) ->
  connection_loop server q w =
  (Ok (latest server None (sent w) 15),
   {| sent := sent w + 15;
      log := log w ++ flat_map (fun k => connect_events q (server k))
                               (seq (sent w) 15) |}).
Proof.
  intros H. unfold connection_loop, for_range.
  rewrite connect_loop_spec; rewrite length_seq; auto.
Qed.

End Loops.

Section Polling.

Variable server : nat -> reply.
Variable q : str.
Variable message : json.

Lemma poll_step_quiet (i : nat) (r : option Response) (w : world) :
  py_in (lit "errors") message = inr false ->
  poll_step server q message i r w = (Ok r, w).
Proof. intros H. unfold poll_step, test_in, bind, ret. now rewrite H. Qed.

Lemma poll_step_accepted (i : nat) (r : option Response) (w : world)
    (resp : Response) :
  py_in (lit "errors") message = inr true ->
  server (sent w) = Accept resp ->
  poll_step server q message i r w =
  (Ok (Some resp),
   {| sent := S (sent w); log := log w ++ poll_events q i |}).
Proof.
  intros H E. unfold poll_step, test_in, bind, ret, post, print, sleep, emit.
  rewrite H, E. cbn. now rewrite <- !app_assoc.
Qed.

Lemma poll_step_refused (i : nat) (r : option Response) (w : world) :
  py_in (lit "errors") message = inr true ->
  server (sent w) = Refuse ->
  poll_step server q message i r w =
  (Raise ConnectionError,
   {| sent := S (sent w); log := log w ++ [Post url q] |}).
Proof.
  intros H E. unfold poll_step, test_in, bind, ret, post.
  now rewrite H, E.
Qed.

(** The message tested is the same at every iteration: without errors in it
    the loop does nothing. *)
Lemma poll_loop_quiet (l : list nat) (r : option Response) (w : world) :
  py_in (lit "errors") message = inr false ->
  for_each l (poll_step server q message) r w = (Ok r, w).
Proof.
  intros H. induction l as [|i l IH]; [reflexivity|].
  cbn [for_each]. now rewrite (bind_ok _ _ _ _ _ (poll_step_quiet i r w H)).
Qed.

(** With errors in it every iteration re-POSTs, whatever comes back. *)
Lemma poll_loop_busy (n a : nat) (r : option Response) (w : world) :
  py_in (lit "errors") message = inr true ->
  (forall k, k < n -> exists resp, server (sent w + k) = Accept resp) ->
  for_each (seq a n) (poll_step server q message) r w =
  (Ok (latest server r (sent w) n),
   {| sent := sent w + n;
      log := log w ++ flat_map (poll_events q) (seq a n) |}).
Proof.
  intros He. revert a r w. induction n as [|n IH]; intros a r w H.
  - cbn. rewrite Nat.add_0_r, app_nil_r. now destruct w.
  - destruct (H 0 (Nat.lt_0_succ _)) as [resp E].
    rewrite Nat.add_0_r in E. cbn [seq for_each].
    rewrite (bind_ok _ _ _ _ _ (poll_step_accepted a r w resp He E)).
    rewrite IH.
    + cbn [sent log flat_map]. rewrite latest_cons, E, <- app_assoc.
      do 2 f_equal. lia.
    + intros k Hk. cbn [sent].
      replace (S (sent w) + k) with (sent w + S k) by lia.
      apply H. lia.
Qed.

(** A refused connection at the [k]-th re-POST ends the loop by an
    exception. *)
Lemma poll_loop_refused (n k a : nat) (r : option Response) (w : world) :
  py_in (lit "errors") message = inr true ->
  k < n ->
  (forall j, j < k -> exists resp, server (sent w + j) = Accept resp) ->
  server (sent w + k) = Refuse ->
  for_each (seq a n) (poll_step server q message) r w =
  (Raise ConnectionError,
   {| sent := sent w + k + 1;
      log := log w ++ flat_map (poll_events q) (seq a k) ++ [Post url q] |}).
Proof.
  intros He Hk Hacc Href.
  replace n with (k + S (n - S k)) by lia.
  rewrite seq_app, for_each_app.
  rewrite (bind_ok _ _ _ _ _ (poll_loop_busy k a r w He Hacc)).
  cbn [seq for_each].
  erewrite bind_raise by (apply poll_step_refused; [exact He | exact Href]).
  cbn [sent log]. rewrite <- app_assoc. do 2 f_equal. lia.
Qed.

End Polling.

(** ** Whole runs *)

Lemma has_key_py_in (k : str) (j : json) :
  has_key k j = true -> py_in k j = inr true.
Proof. destruct j; cbn; try discriminate. now intros ->. Qed.

Lemma no_key_py_in (k : str) (j : json) :
  is_object j = true -> has_key k j = false -> py_in k j = inr false.
Proof. destruct j; cbn; try discriminate. now intros _ ->. Qed.

Lemma connect_events_posts (q : str) (rep : reply) :
  List.length (filter is_post (connect_events q rep)) = 1.
Proof. now destruct rep. Qed.

Lemma connect_events_reports (q : str) (rep : reply) :
  reports (connect_events q rep) = [].
Proof. now destruct rep. Qed.

Section Runs.

Variable server : nat -> reply.
Variable schema : str.

Local Abbreviation q := (buildMutation schema).

Ltac run_script :=
  repeat (progress (unfold bind, print, sleep, emit, ret, raise;
                    cbn [read_schema load sent log List.app])).

Lemma latest_refused (r : option Response) (start n : nat) :
  (forall k, k < n -> server (start + k) = Refuse) ->
  latest server r start n = r.
Proof.
  induction n as [|n IH]; intros H; [reflexivity|].
  rewrite latest_S, (H n) by lia. apply IH. intros; apply H; lia.
Qed.

Lemma connected_posts :
  count_posts (log (world_connected server q)) = 15.
Proof.
  unfold count_posts. cbn [world_connected log filter is_post].
  rewrite count_flat_map with (c := 1); [reflexivity|].
  intros; apply connect_events_posts.
Qed.

Lemma connected_reports : reports (log (world_connected server q)) = [].
Proof.
  cbn [world_connected log reports flat_map List.app].
  apply reports_flat_map. intros; apply connect_events_reports.
Qed.

Lemma connected_sleeps (d : nat) (c : reply -> nat) :
  (forall k, k < 15 ->
     List.length (filter (is_sleep d) (connect_events q (server k))) = c (server k)) ->
  (forall k, k < 15 -> c (server k) = c (server 0)) ->
  count_sleeps d (log (world_connected server q)) = 15 * c (server 0).
Proof.
  intros H Hc. unfold count_sleeps. cbn [world_connected log filter is_sleep].
  rewrite count_flat_map with (c := c (server 0)); [reflexivity|].
  intros k Hk. apply in_seq in Hk. rewrite H, Hc; auto; lia.
Qed.

Lemma connected_waits_accepted :
  (forall k, k < 15 -> exists resp, server k = Accept resp) ->
  count_waits (log (world_connected server q)) = 0.
Proof.
  intros H. unfold count_waits. cbn [world_connected log filter is_wait].
  rewrite count_flat_map with (c := 0); [reflexivity|].
  intros k Hk. apply in_seq in Hk. destruct (H k) as [resp ->]; [lia|].
  reflexivity.
Qed.

Lemma connected_sleeps3 :
  count_sleeps 3 (log (world_connected server q)) = 0.
Proof.
  unfold count_sleeps. cbn [world_connected log filter is_sleep].
  rewrite count_flat_map with (c := 0); [reflexivity|].
  intros k _. now destruct (server k).
Qed.

(** The run up to line 32, when no POST of the first loop is accepted. *)
Lemma run_never_connected :
  (forall k, k < 15 -> server k = Refuse) ->
  run server (Some schema) = (Raise NameError, world_connected server q).
Proof.
  intros H. unfold run, script. run_script.
  rewrite connection_loop_spec
    by (cbn [sent]; intros k Hk; rewrite Nat.add_0_l, H by lia; discriminate).
  rewrite latest_refused by (cbn [sent]; intros; apply H; lia).
  reflexivity.
Qed.

(** The run up to the second loop, when the first one leaves [resp] in [r]. *)
Lemma run_connected (resp : Response) (message : json) :
  connects_with server resp -> decoded resp = Some message ->
  run server (Some schema) =
  bind (polling_loop server q message (Some resp)) report
       (world_connected server q).
Proof.
  intros [Hf Hlast] Hd. unfold run, script. run_script.
  rewrite connection_loop_spec by (cbn [sent]; intros; apply Hf; lia).
  assert (E : latest server None 0 15 = Some resp).
  { apply latest_spec; [intros; apply Hf; lia | exact Hlast]. }
  cbn [sent]. rewrite E. run_script. unfold json_of at 1. rewrite Hd.
  reflexivity.
Qed.

Lemma run_quiet (resp : Response) (message : json) :
  connects_with server resp -> decoded resp = Some message ->
  py_in (lit "errors") message = inr false ->
  run server (Some schema) =
  (Ok tt,
   {| sent := 15;
      log := log (world_connected server q) ++
             [Print (PResponse resp); Print (PJson message)] |}).
Proof.
  intros Hc Hd He. rewrite (run_connected resp message Hc Hd).
  unfold polling_loop, for_range.
  rewrite (bind_ok _ _ _ _ _ (poll_loop_quiet server q message _ _ _ He)).
  unfold report. run_script. unfold json_of. rewrite Hd. run_script.
  now rewrite <- app_assoc.
Qed.

Lemma run_busy (resp : Response) (message : json) (resp' : Response)
    (body' : json) :
  connects_with server resp -> decoded resp = Some message ->
  py_in (lit "errors") message = inr true ->
  (forall k, k < 15 -> exists r', server (15 + k) = Accept r') ->
  server 29 = Accept resp' -> decoded resp' = Some body' ->
  run server (Some schema) =
  (Ok tt,
   {| sent := 30;
      log := log (world_connected server q) ++
             flat_map (poll_events q) (seq 0 15) ++
             [Print (PResponse resp'); Print (PJson body')] |}).
Proof.
  intros Hc Hd He Hacc H29 Hd'. rewrite (run_connected resp message Hc Hd).
  unfold polling_loop, for_range.
  rewrite (bind_ok _ _ _ _ _
             (poll_loop_busy server q message 15 0 (Some resp)
                (world_connected server q) He Hacc)).
  cbn [sent world_connected].
  rewrite (latest_all_accepted server (Some resp) 15 14 resp' H29).
  unfold report. run_script. unfold json_of. rewrite Hd'. run_script.
  now rewrite <- !app_assoc.
Qed.

Lemma run_dropped (resp : Response) (message : json) (k : nat) :
  connects_with server resp -> decoded resp = Some message ->
  py_in (lit "errors") message = inr true ->
  k < 15 ->
  (forall j, j < k -> exists r', server (15 + j) = Accept r') ->
  server (15 + k) = Refuse ->
  run server (Some schema) =
  (Raise ConnectionError,
   {| sent := 15 + k + 1;
      log := log (world_connected server q) ++
             flat_map (poll_events q) (seq 0 k) ++ [Post url q] |}).
Proof.
  intros Hc Hd He Hk Hacc Href. rewrite (run_connected resp message Hc Hd).
  unfold polling_loop, for_range.
  now rewrite (bind_raise _ _ _ _ _
             (poll_loop_refused server q message 15 k 0 (Some resp)
                (world_connected server q) He Hk Hacc Href)).
Qed.

End Runs.

Lemma poll_events_posts (q : str) (l : list nat) :
  count_posts (flat_map (poll_events q) l) = List.length l.
Proof.
  unfold count_posts. rewrite count_flat_map with (c := 1); [lia | reflexivity].
Qed.

Lemma poll_events_sleeps (q : str) (l : list nat) :
  count_sleeps 3 (flat_map (poll_events q) l) = List.length l.
Proof.
  unfold count_sleeps.
  rewrite count_flat_map with (c := 1); [lia | reflexivity].
Qed.

Lemma poll_events_waits (q : str) (l : list nat) :
  count_waits (flat_map (poll_events q) l) = List.length l.
Proof.
  unfold count_waits. rewrite count_flat_map with (c := 1); [lia | reflexivity].
Qed.

Lemma poll_events_reports (q : str) (l : list nat) :
  reports (flat_map (poll_events q) l) = [].
Proof. apply reports_flat_map. reflexivity. Qed.

(** An endpoint that accepts the fifteen POSTs of the first loop leaves the
    reply to the fifteenth in [r]. *)
Lemma connects_with_accepting (server : nat -> reply) (resp : Response) :
  (forall n, n < 15 -> exists r, server n = Accept r) ->
  server 14 = Accept resp ->
  connects_with server resp.
Proof.
  intros H E. split.
  - intros n Hn. destruct (H n Hn) as [r ->]. discriminate.
  - exists 14. repeat split; [lia | exact E | intros; lia].
Qed.

Lemma server_errors_until_accepts (t n : nat) :
  exists r, server_errors_until t n = Accept r.
Proof. unfold server_errors_until. destruct (n <? t); eauto. Qed.

(** ** The scenarios *)

(** C1: against an endpoint that accepts every connection and answers with
    a gqlSchema object and no errors, the run ends normally without any wait
    and reports that answer, but it sends fifteen POSTs, not one: the first
    loop has no exit on success. *)
Theorem scenario_A_sends_fifteen_posts (schema : str) :
  exists w,
    run server_ready (Some schema) = (Ok tt, w) /\
    count_posts (log w) = 15 /\
    count_waits (log w) = 0 /\
    reports (log w) = [PResponse response_installed; PJson body_installed].
Proof.
  eexists. split.
  - apply run_quiet with (resp := response_installed)
                         (message := body_installed);
      [apply connects_with_accepting; [intros; eexists|] | | ]; reflexivity.
  - cbn [log]. rewrite count_posts_app, count_waits_app, reports_app.
    rewrite connected_posts, connected_reports.
    rewrite connected_waits_accepted by (intros; eexists; reflexivity).
    repeat split.
Qed.

(** C2: against an endpoint that accepts every connection and answers with
    errors to its first [t] POSTs and without errors afterwards, the second
    loop re-POSTs and waits either never (t <= 14: the reply to the fifteenth
    POST of the first loop is clean) or fifteen times (otherwise: the message
    tested is never refreshed); with t = 4 that is 15 POSTs and no wait, and
    for no [t] four re-POSTs and four waits. *)
Theorem scenario_C_reposts_never_or_fifteen_times (t : nat) (schema : str) :
  exists w,
    run (server_errors_until t) (Some schema) = (Ok tt, w) /\
    count_posts (log w) = (if t <=? 14 then 15 else 30) /\
    count_sleeps 3 (log w) = (if t <=? 14 then 0 else 15).
Proof.
  destruct (t <=? 14) eqn:E.
  - apply Nat.leb_le in E. eexists. split.
    + apply run_quiet with (resp := response_installed)
                           (message := body_installed).
      * apply connects_with_accepting.
        -- intros; apply server_errors_until_accepts.
        -- unfold server_errors_until.
           now replace (14 <? t) with false by (symmetry; apply Nat.ltb_ge; lia).
      * reflexivity.
      * reflexivity.
    + cbn [log]. rewrite count_posts_app, count_sleeps_app.
      rewrite connected_posts, connected_sleeps3. split; reflexivity.
  - apply Nat.leb_gt in E.
    destruct (server_errors_until_accepts t 29) as [resp' E29].
    assert (exists body', decoded resp' = Some body') as [body' Hd'].
    { revert E29. unfold server_errors_until.
      destruct (29 <? t); intros [= <-]; eexists; reflexivity. }
    eexists. split.
    + apply run_busy with (resp := response_errors) (message := body_errors)
                          (resp' := resp') (body' := body').
      * apply connects_with_accepting.
        -- intros; apply server_errors_until_accepts.
        -- unfold server_errors_until.
           now replace (14 <? t) with true by (symmetry; apply Nat.ltb_lt; lia).
      * reflexivity.
      * reflexivity.
      * intros; apply server_errors_until_accepts.
      * exact E29.
      * exact Hd'.
    + cbn [log]. rewrite !count_posts_app, !count_sleeps_app.
      rewrite connected_posts, connected_sleeps3.
      rewrite poll_events_posts, poll_events_sleeps. split; reflexivity.
Qed.

(** C3: if each of the fifteen POSTs of the first loop raises a connection
    error, the loop ends with [r] unbound, and the run ends on line 32 with
    an unhandled NameError, after fifteen POSTs and fifteen waits of one
    second, and with no final report printed. *)
Theorem unreachable_endpoint_ends_in_NameError
    (server : nat -> reply) (schema : str) :
  (forall n, n < 15 -> server n = Refuse) ->
  fst (connection_loop server (buildMutation schema)
         {| sent := 0; log := [Print (PStr (buildMutation schema))] |})
    = Ok None /\
  exists w,
    run server (Some schema) = (Raise NameError, w) /\
    sent w = 15 /\
    count_posts (log w) = 15 /\
    count_sleeps 1 (log w) = 15 /\
    reports (log w) = [].
Proof.
  intros H. split.
  - rewrite connection_loop_spec
      by (cbn [sent]; intros k Hk; rewrite Nat.add_0_l, H by lia; discriminate).
    cbn [fst sent]. now rewrite latest_refused by (intros; apply H; lia).
  - eexists. split; [now apply run_never_connected|].
    rewrite connected_posts, connected_reports. repeat split.
    rewrite connected_sleeps
      with (c := fun rep => match rep with Accept _ => 0 | _ => 1 end).
    + now rewrite (H 0) by lia.
    + intros k Hk. now rewrite (H k Hk).
    + intros k Hk. now rewrite (H k Hk), (H 0) by lia.
Qed.

Lemma unreachable_endpoint_ends_in_NameError_witness :
  (forall n, n < 15 -> server_down n = Refuse) /\
  exists w,
    run server_down (Some schema_one_line) = (Raise NameError, w) /\
    sent w = 15 /\
    count_posts (log w) = 15 /\
    count_sleeps 1 (log w) = 15 /\
    reports (log w) = [].
Proof.
  split; [reflexivity|].
  apply (unreachable_endpoint_ends_in_NameError server_down schema_one_line).
  reflexivity.
Defined.

(** C6: if the endpoint accepts every connection and every body has an
    "errors" key, the run still ends normally: after the fifteen POSTs of the
    first loop and fifteen re-POSTs, each followed by a wait of three
    seconds, it prints the reply to the last POST and its decoded body, which
    still has the "errors" key. *)
Theorem scenario_D_reports_last_erroring_response
    (server : nat -> reply) (schema : str) :
  (forall n, n < 30 ->
     exists resp body, server n = Accept resp /\ decoded resp = Some body /\
                       has_key (lit "errors") body = true) ->
  exists resp body w,
    server 29 = Accept resp /\ decoded resp = Some body /\
    has_key (lit "errors") body = true /\
    run server (Some schema) = (Ok tt, w) /\
    sent w = 30 /\
    count_posts (log w) = 30 /\
    count_sleeps 3 (log w) = 15 /\
    reports (log w) = [PResponse resp; PJson body].
Proof.
  intros H.
  destruct (H 14) as (resp14 & body14 & E14 & D14 & K14); [lia|].
  destruct (H 29) as (resp29 & body29 & E29 & D29 & K29); [lia|].
  assert (Hacc : forall n, n < 30 -> exists r, server n = Accept r).
  { intros n Hn. destruct (H n Hn) as (r & _ & E & _). eauto. }
  exists resp29, body29. eexists. repeat split; try eassumption.
  - apply run_busy with (resp := resp14) (message := body14)
                        (resp' := resp29) (body' := body29); auto.
    + apply connects_with_accepting; [intros; apply Hacc; lia | exact E14].
    + now apply has_key_py_in.
    + intros; apply Hacc; lia.
  - reflexivity.
  - cbn [log]. rewrite !count_posts_app, connected_posts, poll_events_posts.
    reflexivity.
  - cbn [log]. rewrite !count_sleeps_app, connected_sleeps3, poll_events_sleeps.
    reflexivity.
  - cbn [log]. rewrite !reports_app, connected_reports, poll_events_reports.
    reflexivity.
Qed.

Lemma scenario_D_reports_last_erroring_response_witness :
  exists resp body w,
    server_errors_until 30 29 = Accept resp /\ decoded resp = Some body /\
    has_key (lit "errors") body = true /\
    run (server_errors_until 30) (Some schema_one_line) = (Ok tt, w) /\
    sent w = 30 /\
    count_posts (log w) = 30 /\
    count_sleeps 3 (log w) = 15 /\
    reports (log w) = [PResponse resp; PJson body].
Proof.
  apply (scenario_D_reports_last_erroring_response
           (server_errors_until 30) schema_one_line).
  intros n Hn. exists response_errors, body_errors.
  unfold server_errors_until. apply Nat.ltb_lt in Hn. rewrite Hn.
  repeat split.
Defined.

(** C8: the first loop has no exit on success.  Whatever the endpoint
    answers, short of an exception other than a connection error, it sends
    fifteen POSTs, and the [r] it leaves to the code after it holds the reply
    to the last attempt that was accepted; when every attempt is accepted
    that is the reply to the fifteenth. *)
Theorem connection_loop_runs_all_fifteen
    (server : nat -> reply) (q : str) (w : world) :
  (forall k, k < 15 -> server (sent w + k) <> Fail) ->
  exists r w',
    connection_loop server q w = (Ok r, w') /\
    sent w' = sent w + 15 /\
    count_posts (log w') = count_posts (log w) + 15 /\
    (forall resp, r = Some resp <->
       exists k, k < 15 /\ server (sent w + k) = Accept resp /\
                 forall j, k < j < 15 -> server (sent w + j) = Refuse) /\
    (forall resp, server (sent w + 14) = Accept resp -> r = Some resp).
Proof.
  intros H. do 2 eexists. split; [now apply connection_loop_spec|].
  cbn [sent log]. repeat split.
  - rewrite count_posts_app. f_equal. unfold count_posts.
    rewrite count_flat_map with (c := 1); [now rewrite length_seq|].
    intros; apply connect_events_posts.
  - now apply latest_spec.
  - now apply latest_spec.
  - intros resp E.
    now rewrite (latest_all_accepted server None (sent w) 14 resp E).
Qed.

Lemma connection_loop_runs_all_fifteen_witness :
  exists r w',
    connection_loop server_ready (buildMutation schema_one_line)
      {| sent := 0; log := [] |} = (Ok r, w') /\
    sent w' = 15 /\
    count_posts (log w') = 15 /\
    r = Some response_installed.
Proof.
  destruct (connection_loop_runs_all_fifteen server_ready
              (buildMutation schema_one_line) {| sent := 0; log := [] |})
    as (r & w' & E & Hs & Hp & _ & Hr).
  - intros k Hk. discriminate.
  - exists r, w'. repeat split; try assumption.
    apply Hr. reflexivity.
Defined.

(** C9: the second loop tests the same message at every iteration, the one
    decoded before the loop.  If that body has an "errors" key, the loop
    re-POSTs fifteen times and waits fifteen times three seconds, whatever
    the replies to the re-POSTs hold; if it is an object without that key,
    the loop does nothing: no POST, no wait, [r] unchanged. *)
Theorem polling_loop_decided_by_first_message
    (server : nat -> reply) (q : str) (message : json)
    (r : option Response) (w : world) :
  (has_key (lit "errors") message = true ->
   (forall k, k < 15 -> exists resp, server (sent w + k) = Accept resp) ->
   exists r' w',
     polling_loop server q message r w = (Ok r', w') /\
     (forall resp, server (sent w + 14) = Accept resp -> r' = Some resp) /\
     count_posts (log w') = count_posts (log w) + 15 /\
     count_sleeps 3 (log w') = count_sleeps 3 (log w) + 15 /\
     count_waits (log w') = count_waits (log w) + 15) /\
  (is_object message = true -> has_key (lit "errors") message = false ->
   polling_loop server q message r w = (Ok r, w)).
Proof.
  split.
  - intros Hk Hacc. do 2 eexists. split.
    + unfold polling_loop, for_range. change (15 - 0) with 15.
      apply poll_loop_busy; [now apply has_key_py_in | exact Hacc].
    + cbn [log]. split.
      * intros resp E. apply (latest_all_accepted server r (sent w) 14 resp E).
      * rewrite count_posts_app, count_sleeps_app, count_waits_app.
        rewrite poll_events_posts, poll_events_sleeps, poll_events_waits.
        rewrite length_seq. auto.
  - intros Ho Hk. unfold polling_loop, for_range.
    apply poll_loop_quiet. now apply no_key_py_in.
Qed.

Lemma polling_loop_decided_by_first_message_witness :
  (exists r' w',
     polling_loop server_ready (buildMutation schema_one_line) body_errors
       (Some response_errors) {| sent := 15; log := [] |} = (Ok r', w') /\
     (forall resp, server_ready 29 = Accept resp -> r' = Some resp) /\
     count_posts (log w') = 15 /\
     count_sleeps 3 (log w') = 15 /\
     count_waits (log w') = 15) /\
  polling_loop server_ready (buildMutation schema_one_line) body_installed
    (Some response_installed) {| sent := 15; log := [] |} =
  (Ok (Some response_installed), {| sent := 15; log := [] |}).
Proof.
  split.
  - apply (proj1 (polling_loop_decided_by_first_message server_ready
                    (buildMutation schema_one_line) body_errors
                    (Some response_errors) {| sent := 15; log := [] |})).
    + reflexivity.
    + intros k Hk. exists response_installed. reflexivity.
  - apply (proj2 (polling_loop_decided_by_first_message server_ready
                    (buildMutation schema_one_line) body_installed
                    (Some response_installed) {| sent := 15; log := [] |}));
      reflexivity.
Defined.

(** C10: a connection error raised by a re-POST of the second loop is not
    caught.  If the first loop leaves a reply whose body has an "errors" key
    and the endpoint refuses the re-POST of iteration [k], the run ends there
    with an unhandled ConnectionError: the refused POST is the last event, no
    wait follows it, no later POST is attempted and no report is printed. *)
Theorem polling_connection_error_is_unhandled
    (server : nat -> reply) (schema : str) (resp : Response)
    (message : json) (k : nat) :
  connects_with server resp ->
  decoded resp = Some message ->
  has_key (lit "errors") message = true ->
  k < 15 ->
  (forall j, j < k -> exists r', server (15 + j) = Accept r') ->
  server (15 + k) = Refuse ->
  exists w before,
    run server (Some schema) = (Raise ConnectionError, w) /\
    log w = before ++ [Post url (buildMutation schema)] /\
    sent w = 15 + k + 1 /\
    count_posts (log w) = 15 + k + 1 /\
    count_sleeps 3 (log w) = k /\
    reports (log w) = [].
Proof.
  intros Hc Hd Hk Hlt Hacc Href. do 2 eexists. split.
  - apply run_dropped with (resp := resp) (message := message) (k := k); auto.
    now apply has_key_py_in.
  - cbn [sent log]. split; [now rewrite app_assoc|]. split; [reflexivity|].
    rewrite !count_posts_app, !count_sleeps_app, !reports_app.
    rewrite connected_posts, connected_sleeps3, connected_reports.
    rewrite poll_events_posts, poll_events_sleeps, poll_events_reports.
    rewrite length_seq. cbn. repeat split; lia.
Qed.

Lemma polling_connection_error_is_unhandled_witness :
  exists w before,
    run (server_drops_at 17) (Some schema_one_line)
      = (Raise ConnectionError, w) /\
    log w = before ++ [Post url (buildMutation schema_one_line)] /\
    sent w = 15 + 2 + 1 /\
    count_posts (log w) = 15 + 2 + 1 /\
    count_sleeps 3 (log w) = 2 /\
    reports (log w) = [].
Proof.
  apply (polling_connection_error_is_unhandled (server_drops_at 17)
           schema_one_line response_errors body_errors 2).
  - apply connects_with_accepting.
    + intros n Hn. exists response_errors. unfold server_drops_at.
      destruct (Nat.eqb_spec n 17) as [->|_]; [lia | reflexivity].
    + reflexivity.
  - reflexivity.
  - reflexivity.
  - lia.
  - intros j Hj. exists response_errors. unfold server_drops_at.
    destruct (Nat.eqb_spec (15 + j) 17) as [E|_]; [lia | reflexivity].
  - reflexivity.
Defined.

(** * Further properties of the script *)

(** ** The payload, for every schema text *)

Section PayloadFacts.

Local Abbreviation squeeze := (replace [SP; SP] [SP]).

Lemma is_ws_false (c : codepoint) :
  is_ws c = false ->
  N.eqb NL c = false /\ N.eqb TAB c = false /\ N.eqb SP c = false.
Proof.
  unfold is_ws. intros H. apply orb_false_iff in H as [H Hs].
  apply orb_false_iff in H as [Hn Ht]. auto.
Qed.

Lemma non_ws_app (x y : str) : non_ws (x ++ y) = non_ws x ++ non_ws y.
Proof. apply filter_app. Qed.

Lemma non_ws_replace_single (c : codepoint) (new s : str) :
  is_ws c = true -> non_ws new = [] ->
  non_ws (replace [c] new s) = non_ws s.
Proof.
  intros Hc Hnew. rewrite replace_single.
  induction s as [|a s IH]; [reflexivity|].
  cbn [flat_map]. rewrite non_ws_app, IH.
  destruct (N.eqb c a) eqn:E.
  - apply N.eqb_eq in E. subst a. rewrite Hnew.
    unfold non_ws at 2. cbn [filter]. now rewrite Hc.
  - change (a :: s) with ([a] ++ s). now rewrite non_ws_app.
Qed.

Lemma non_ws_squeeze (s : str) : non_ws (squeeze s) = non_ws s.
Proof.
  induction s as [|a|a b s IH1 IH2] using str_ind2.
  - reflexivity.
  - now rewrite squeeze_one.
  - destruct (N.eqb SP a && N.eqb SP b) eqn:E.
    + rewrite (squeeze_pair _ _ _ E).
      apply andb_true_iff in E as [Ea Eb].
      apply N.eqb_eq in Ea, Eb. subst a b.
      unfold non_ws in *. cbn [filter]. exact IH1.
    + rewrite (squeeze_other _ _ _ E).
      unfold non_ws in *. cbn [filter] in *. now rewrite IH2.
Qed.

Lemma length_squeeze (s : str) : List.length (squeeze s) <= List.length s.
Proof.
  induction s as [|a|a b s IH1 IH2] using str_ind2.
  - auto.
  - now rewrite squeeze_one.
  - destruct (N.eqb SP a && N.eqb SP b) eqn:E.
    + rewrite (squeeze_pair _ _ _ E). cbn [List.length]. lia.
    + rewrite (squeeze_other _ _ _ E). cbn [List.length] in *. lia.
Qed.

Lemma length_replace_single (c : codepoint) (new s : str) :
  List.length new <= 1 ->
  List.length (replace [c] new s) <= List.length s.
Proof.
  intros H. rewrite replace_single.
  induction s as [|a s IH]; [auto|].
  cbn [flat_map]. rewrite length_app. cbn [List.length].
  destruct (N.eqb c a); cbn [List.length]; lia.
Qed.

Lemma mem_repeat (c d : codepoint) (n : nat) :
  N.eqb c d = false -> mem c (repeat d n) = false.
Proof.
  intros H. unfold mem. induction n as [|n IH]; [reflexivity|].
  cbn [repeat existsb]. now rewrite H, IH.
Qed.

Lemma squeeze_repeat (n : nat) :
  squeeze (repeat SP n) = repeat SP (Nat.div2 (S n)).
Proof.
  assert (H : squeeze (repeat SP n) = repeat SP (Nat.div2 (S n)) /\
              squeeze (repeat SP (S n)) = repeat SP (Nat.div2 (S (S n)))).
  { induction n as [|n [IH1 IH2]].
    - split; [reflexivity | apply squeeze_one].
    - split; [exact IH2|].
      change (repeat SP (S (S n))) with (SP :: SP :: repeat SP n).
      rewrite squeeze_pair by reflexivity. rewrite IH1. reflexivity. }
  apply H.
Qed.

Lemma quarter_up (n : nat) : Nat.div2 (S (Nat.div2 (S n))) = (n + 3) / 4.
Proof.
  rewrite !Nat.div2_div.
  replace (S (S n / 2)) with ((S n + 1 * 2) / 2)
    by (rewrite Nat.div_add by discriminate; lia).
  rewrite Nat.Div0.div_div. f_equal. lia.
Qed.

Lemma collapse_ws_repeat (n : nat) :
  collapse_ws (repeat SP n) = repeat SP ((n + 3) / 4).
Proof.
  unfold collapse_ws.
  rewrite (replace_single_absent NL [] (repeat SP n))
    by now apply mem_repeat.
  rewrite squeeze_repeat.
  rewrite replace_single_absent by now apply mem_repeat.
  rewrite squeeze_repeat. now rewrite quarter_up.
Qed.

Lemma buildMutation_split (schema : str) :
  buildMutation schema = payload_head ++ collapse_ws schema ++ payload_tail.
Proof.
  unfold buildMutation. rewrite substitute_split.
  rewrite collapse_ws_app_sep by reflexivity.
  rewrite collapse_ws_app_sep by reflexivity.
  change (collapse_ws template_head) with (lit
    "mutation { updateGQLSchema( input: { set: { schema: ").
  change (DQUOTE :: collapse_ws template_tail) with payload_tail.
  unfold payload_head. now rewrite <- app_assoc.
Qed.

Lemma non_ws_collapse_ws (s : str) : non_ws (collapse_ws s) = non_ws s.
Proof.
  unfold collapse_ws.
  rewrite non_ws_squeeze, non_ws_replace_single by reflexivity.
  rewrite non_ws_squeeze, non_ws_replace_single by reflexivity.
  reflexivity.
Qed.

End PayloadFacts.

(** X1: line 21 puts the schema text, whatever it is, once between the two
    double quotes of the template, unchanged: the text is not scanned again,
    so a schema text that holds the placeholder itself stays as it is. *)
Theorem substitute_embeds_any_schema (schema : str) :
  substitute schema =
    template_head ++ [DQUOTE] ++ schema ++ [DQUOTE] ++ template_tail /\
  substitute (lit "$my_schema") =
    template_head ++ [DQUOTE] ++ lit "$my_schema" ++ [DQUOTE] ++ template_tail.
Proof. split; reflexivity. Qed.

(** X2: for every schema text the payload is the fixed head, the schema text
    after the replace chain, and the fixed tail: the quotes around the
    placeholder keep the chain from merging whitespace of the schema text
    with whitespace of the template. *)
Theorem buildMutation_head_schema_tail (schema : str) :
  buildMutation schema = payload_head ++ collapse_ws schema ++ payload_tail.
Proof. apply buildMutation_split. Qed.

(** X3: the replace chain only touches whitespace: the characters of the
    output other than newline, tab and space are those of the input, in the
    same order, and the output is never longer than the input. *)
Theorem collapse_ws_keeps_non_whitespace (s : str) :
  non_ws (collapse_ws s) = non_ws s /\
  List.length (collapse_ws s) <= List.length s.
Proof.
  split; [apply non_ws_collapse_ws|].
  unfold collapse_ws.
  pose proof (length_squeeze (replace [TAB] [SP]
                (replace [SP; SP] [SP] (replace [NL] [] s)))).
  pose proof (length_replace_single TAB [SP]
                (replace [SP; SP] [SP] (replace [NL] [] s))
                (le_n 1)).
  pose proof (length_squeeze (replace [NL] [] s)).
  pose proof (length_replace_single NL [] s (Nat.le_0_l 1)).
  lia.
Qed.

(** X4: a run of [n] spaces between two characters that are no whitespace
    comes out as a run of n/4 spaces, rounded up: one space for a run of one
    to four, two or more from five on. *)
Theorem collapse_ws_space_run (x y : str) (c d : codepoint) (n : nat) :
  is_ws c = false -> is_ws d = false ->
  collapse_ws (x ++ c :: repeat SP n ++ d :: y) =
  collapse_ws x ++ c :: repeat SP ((n + 3) / 4) ++ d :: collapse_ws y.
Proof.
  intros Hc Hd.
  apply is_ws_false in Hc as (Hc1 & Hc2 & Hc3).
  apply is_ws_false in Hd as (Hd1 & Hd2 & Hd3).
  rewrite collapse_ws_app_sep by assumption.
  rewrite collapse_ws_app_sep by assumption.
  now rewrite collapse_ws_repeat.
Qed.

Lemma collapse_ws_space_run_witness :
  collapse_ws (lit "type" ++ 123%N :: repeat SP 5 ++ 125%N :: lit "") =
  lit "type" ++ 123%N :: repeat SP 2 ++ 125%N :: lit "".
Proof.
  apply (collapse_ws_space_run (lit "type") (lit "") 123%N 125%N 5);
    reflexivity.
Defined.

(** X5: nothing of the schema text is escaped on its way into the payload:
    its characters other than newline, tab and space, double quotes and
    backslashes among them, stand in the payload unchanged and in order
    between those of the head and those of the tail. *)
Theorem buildMutation_does_not_escape (schema : str) :
  non_ws (buildMutation schema) =
  non_ws payload_head ++ non_ws schema ++ non_ws payload_tail.
Proof.
  rewrite buildMutation_split, !non_ws_app. now rewrite non_ws_collapse_ws.
Qed.

(** ** Every way a run can end *)

Lemma sleep_seconds_app (l1 l2 : list event) :
  sleep_seconds (l1 ++ l2) = sleep_seconds l1 + sleep_seconds l2.
Proof.
  induction l1 as [|e l1 IH]; [reflexivity|].
  cbn [List.app sleep_seconds]. destruct e; rewrite IH; lia.
Qed.

Lemma posts_only_app (q : str) (l1 l2 : list event) :
  posts_only q l1 -> posts_only q l2 -> posts_only q (l1 ++ l2).
Proof.
  intros H1 H2 u q' Hin. apply in_app_or in Hin as [Hin|Hin]; eauto.
Qed.

Lemma posts_only_flat_map (q : str) (f : nat -> list event) (l : list nat) :
  (forall k, posts_only q (f k)) -> posts_only q (flat_map f l).
Proof.
  intros H u q' Hin. apply in_flat_map in Hin as (k & _ & Hin).
  now apply (H k).
Qed.

Lemma posts_only_connect (q : str) (rep : reply) :
  posts_only q (connect_events q rep).
Proof.
  intros u q' Hin. destruct rep; cbn in Hin;
    repeat (destruct Hin as [Hin|Hin]; [try discriminate|]);
    try contradiction; injection Hin as <- <-; auto.
Qed.

Lemma posts_only_poll (q : str) (i : nat) : posts_only q (poll_events q i).
Proof.
  intros u q' Hin. cbn in Hin.
  repeat (destruct Hin as [Hin|Hin]; [try discriminate|]);
    try contradiction; injection Hin as <- <-; auto.
Qed.

Lemma posts_only_post (q : str) : posts_only q [Post url q].
Proof. intros u q' [[= <- <-]|[]]. auto. Qed.

Lemma posts_only_prints (q : str) (l : list event) :
  count_posts l = 0 -> posts_only q l.
Proof.
  intros H u q' Hin. exfalso.
  assert (Hf : In (Post u q') (filter is_post l))
    by (apply filter_In; auto).
  unfold count_posts in H. destruct (filter is_post l); [auto | discriminate].
Qed.

Section Outcomes.

Variable server : nat -> reply.
Variable q : str.

Local Abbreviation connect_log a n :=
  (flat_map (fun k => connect_events q (server k)) (seq a n)).

Lemma connect_log_posts (a n : nat) : count_posts (connect_log a n) = n.
Proof.
  unfold count_posts. rewrite count_flat_map with (c := 1).
  - rewrite length_seq. lia.
  - intros; apply connect_events_posts.
Qed.

Lemma connect_log_reports (a n : nat) : reports (connect_log a n) = [].
Proof. apply reports_flat_map. intros; apply connect_events_reports. Qed.

Lemma connect_log_S (a n : nat) :
  connect_log a (S n) = connect_log a n ++ connect_events q (server (a + n)).
Proof. now rewrite seq_S, flat_map_app; cbn [flat_map]; rewrite app_nil_r. Qed.

Lemma refusals_S (a n : nat) :
  refusals server a (S n) =
  refusals server a n + (if is_refuse (server (a + n)) then 1 else 0).
Proof.
  unfold refusals. rewrite seq_S, filter_app, length_app. cbn [filter].
  now destruct (is_refuse (server (a + n))).
Qed.

Lemma refusals_le (a n : nat) : refusals server a n <= n.
Proof.
  induction n as [|n IH]; [auto|].
  rewrite refusals_S. destruct (is_refuse (server (a + n))); lia.
Qed.

(** With an attempt accepted, not all are refused. *)
Lemma refusals_lt (a n k : nat) (resp : Response) :
  k < n -> server (a + k) = Accept resp -> refusals server a n < n.
Proof.
  induction n as [|n IH]; intros Hk E; [lia|].
  rewrite refusals_S. destruct (Nat.eq_dec k n) as [->|Hne].
  - rewrite E. cbn [is_refuse]. pose proof (refusals_le a n). lia.
  - specialize (IH ltac:(lia) E).
    destruct (is_refuse (server (a + n))); lia.
Qed.

(** One second and one sleep for each refused attempt. *)
Lemma connect_log_sleeps (a n : nat) :
  (forall k, k < n -> server (a + k) <> Fail) ->
  sleep_seconds (connect_log a n) = refusals server a n /\
  count_sleeps 1 (connect_log a n) = refusals server a n /\
  count_sleeps 3 (connect_log a n) = 0.
Proof.
  induction n as [|n IH]; intros H; [repeat split|].
  destruct IH as (IH1 & IH2 & IH3); [intros; apply H; lia|].
  rewrite connect_log_S, refusals_S, sleep_seconds_app, !count_sleeps_app.
  rewrite IH1, IH2, IH3. specialize (H n (Nat.lt_succ_diag_r n)).
  destruct (server (a + n)); [repeat split; cbn; lia .. | contradiction].
Qed.

Lemma poll_log_seconds (l : list nat) :
  sleep_seconds (flat_map (poll_events q) l) = 3 * List.length l.
Proof.
  induction l as [|i l IH]; [reflexivity|].
  cbn [flat_map List.length]. rewrite sleep_seconds_app, IH. cbn. lia.
Qed.

(** The first POST of a range that fails otherwise than by a refused
    connection, if any. *)
Lemma first_failure (a n : nat) :
  (forall k, k < n -> server (a + k) <> Fail) \/
  exists k, k < n /\ server (a + k) = Fail /\
            forall j, j < k -> server (a + j) <> Fail.
Proof.
  induction n as [|n [IH|(k & Hk & E & Hj)]].
  - left. intros; lia.
  - destruct (server (a + n)) eqn:E.
    + left. intros k Hk. destruct (Nat.eq_dec k n) as [->|];
        [rewrite E; discriminate | apply IH; lia].
    + left. intros k Hk. destruct (Nat.eq_dec k n) as [->|];
        [rewrite E; discriminate | apply IH; lia].
    + right. exists n. auto.
  - right. exists k. auto.
Qed.

(** The first POST of a range that is not accepted, if any. *)
Lemma first_rejection (a n : nat) :
  (forall k, k < n -> exists resp, server (a + k) = Accept resp) \/
  exists k, k < n /\ (server (a + k) = Refuse \/ server (a + k) = Fail) /\
            forall j, j < k -> exists resp, server (a + j) = Accept resp.
Proof.
  induction n as [|n [IH|(k & Hk & E & Hj)]].
  - left. intros; lia.
  - destruct (server (a + n)) eqn:E.
    + left. intros k Hk. destruct (Nat.eq_dec k n) as [->|];
        [eauto | apply IH; lia].
    + right. exists n. auto.
    + right. exists n. auto.
  - right. exists k. auto.
Qed.

Lemma connect_step_failed (i : nat) (r : option Response) (w : world) :
  server (sent w) = Fail ->
  connect_step server q i r w =
  (Raise RequestException,
   {| sent := S (sent w); log := log w ++ [Post url q] |}).
Proof.
  intros E. unfold connect_step, try_except, bind, post. now rewrite E.
Qed.

Lemma connection_loop_failed (k : nat) (w : world) :
  k < 15 ->
  (forall j, j < k -> server (sent w + j) <> Fail) ->
  server (sent w + k) = Fail ->
  connection_loop server q w =
  (Raise RequestException,
   {| sent := sent w + k + 1;
      log := log w ++ connect_log (sent w) k ++ [Post url q] |}).
Proof.
  intros Hk Hj E. unfold connection_loop, for_range.
  replace (15 - 0) with (k + S (14 - k)) by lia.
  rewrite seq_app, for_each_app.
  erewrite bind_ok
    by (rewrite connect_loop_spec; rewrite length_seq; [reflexivity | exact Hj]).
  cbn [seq for_each].
  erewrite bind_raise by (apply connect_step_failed; exact E).
  cbn [sent log]. rewrite <- app_assoc. do 2 f_equal. lia.
Qed.

Variable message : json.

Lemma poll_step_failed (i : nat) (r : option Response) (w : world) :
  py_in (lit "errors") message = inr true ->
  server (sent w) = Fail ->
  poll_step server q message i r w =
  (Raise RequestException,
   {| sent := S (sent w); log := log w ++ [Post url q] |}).
Proof.
  intros H E. unfold poll_step, test_in, bind, ret, post.
  now rewrite H, E.
Qed.

Lemma poll_step_type_error (i : nat) (r : option Response) (w : world)
    (e : exn) :
  py_in (lit "errors") message = inl e ->
  poll_step server q message i r w = (Raise e, w).
Proof. intros H. unfold poll_step, test_in, bind, raise. now rewrite H. Qed.

Lemma polling_loop_failed (k : nat) (r : option Response) (w : world) :
  py_in (lit "errors") message = inr true ->
  k < 15 ->
  (forall j, j < k -> exists resp, server (sent w + j) = Accept resp) ->
  server (sent w + k) = Fail ->
  polling_loop server q message r w =
  (Raise RequestException,
   {| sent := sent w + k + 1;
      log := log w ++ flat_map (poll_events q) (seq 0 k) ++ [Post url q] |}).
Proof.
  intros He Hk Hacc E. unfold polling_loop, for_range.
  replace (15 - 0) with (k + S (14 - k)) by lia.
  rewrite seq_app, for_each_app.
  rewrite (bind_ok _ _ _ _ _ (poll_loop_busy server q message k 0 r w He Hacc)).
  cbn [seq for_each].
  erewrite bind_raise by (apply poll_step_failed; [exact He | exact E]).
  cbn [sent log]. rewrite <- app_assoc. do 2 f_equal. lia.
Qed.

End Outcomes.

Section RunOutcomes.

Variable server : nat -> reply.
Variable schema : str.

Local Abbreviation q := (buildMutation schema).

Ltac step_script :=
  repeat (progress (unfold bind, print, sleep, emit, ret, raise;
                    cbn [read_schema load sent log List.app])).

Lemma latest_none (a n : nat) :
  (forall k, k < n -> server (a + k) <> Fail) ->
  latest server None a n = None ->
  forall k, k < n -> server (a + k) = Refuse.
Proof.
  induction n as [|n IH]; intros Hf E k Hk; [lia|].
  rewrite latest_S in E. specialize (Hf n (Nat.lt_succ_diag_r n)) as Hn.
  destruct (server (a + n)) eqn:En; [discriminate| |contradiction].
  destruct (Nat.eq_dec k n) as [->|Hne]; [exact En|].
  apply IH; [intros; apply Hf; lia | exact E | lia].
Qed.

(** The run when a POST of the first loop raises something else than a
    connection error. *)
Lemma run_failed (k : nat) :
  k < 15 ->
  (forall j, j < k -> server j <> Fail) ->
  server k = Fail ->
  run server (Some schema) =
  (Raise RequestException,
   {| sent := k + 1;
      log := Print (PStr q) ::
             flat_map (fun n => connect_events q (server n)) (seq 0 k) ++
             [Post url q] |}).
Proof.
  intros Hk Hj E. unfold run, script. step_script.
  now rewrite (connection_loop_failed server q k
                 {| sent := 0; log := [Print (PStr q)] |} Hk Hj E).
Qed.

(** The run when the body decoded on line 32 is not JSON. *)
Lemma run_undecodable (resp : Response) :
  connects_with server resp -> decoded resp = None ->
  run server (Some schema) = (Raise JSONDecodeError, world_connected server q).
Proof.
  intros [Hf Hlast] Hd. unfold run, script. step_script.
  rewrite connection_loop_spec by (cbn [sent]; intros; apply Hf; lia).
  assert (E : latest server None 0 15 = Some resp).
  { apply latest_spec; [intros; apply Hf; lia | exact Hlast]. }
  cbn [sent]. rewrite E. step_script. unfold json_of at 1. rewrite Hd.
  reflexivity.
Qed.

(** The run when the test of line 35 raises. *)
Lemma run_type_error (resp : Response) (message : json) (e : exn) :
  connects_with server resp -> decoded resp = Some message ->
  py_in (lit "errors") message = inl e ->
  run server (Some schema) = (Raise e, world_connected server q).
Proof.
  intros Hc Hd He. rewrite (run_connected server schema resp message Hc Hd).
  unfold polling_loop, for_range. cbn [Nat.sub seq for_each].
  erewrite bind_raise;
    [reflexivity | erewrite bind_raise; [reflexivity|]].
  now apply poll_step_type_error.
Qed.

(** The run when a re-POST raises something else than a connection error. *)
Lemma run_poll_failed (resp : Response) (message : json) (k : nat) :
  connects_with server resp -> decoded resp = Some message ->
  py_in (lit "errors") message = inr true ->
  k < 15 ->
  (forall j, j < k -> exists r', server (15 + j) = Accept r') ->
  server (15 + k) = Fail ->
  run server (Some schema) =
  (Raise RequestException,
   {| sent := 15 + k + 1;
      log := log (world_connected server q) ++
             flat_map (poll_events q) (seq 0 k) ++ [Post url q] |}).
Proof.
  intros Hc Hd He Hk Hacc E. rewrite (run_connected server schema resp message Hc Hd).
  now rewrite (bind_raise _ _ _ _ _
             (polling_loop_failed server q message k (Some resp)
                (world_connected server q) He Hk Hacc E)).
Qed.

(** The run when the body of the last reply is not JSON. *)
Lemma run_report_undecodable (resp : Response) (message : json)
    (resp' : Response) :
  connects_with server resp -> decoded resp = Some message ->
  py_in (lit "errors") message = inr true ->
  (forall k, k < 15 -> exists r', server (15 + k) = Accept r') ->
  server 29 = Accept resp' -> decoded resp' = None ->
  run server (Some schema) =
  (Raise JSONDecodeError,
   {| sent := 30;
      log := log (world_connected server q) ++
             flat_map (poll_events q) (seq 0 15) ++
             [Print (PResponse resp')] |}).
Proof.
  intros Hc Hd He Hacc H29 Hd'.
  rewrite (run_connected server schema resp message Hc Hd).
  unfold polling_loop, for_range.
  rewrite (bind_ok _ _ _ _ _
             (poll_loop_busy server q message 15 0 (Some resp)
                (world_connected server q) He Hacc)).
  cbn [sent world_connected].
  rewrite (latest_all_accepted server (Some resp) 15 14 resp' H29).
  unfold report. step_script. unfold json_of. rewrite Hd'. step_script.
  now rewrite <- !app_assoc.
Qed.

End RunOutcomes.

(** Whatever the endpoint does, the run ends in one of the nine ways. *)
Lemma run_ending (server : nat -> reply) (schema : str) :
  ending server (buildMutation schema)
    (fst (run server (Some schema))) (snd (run server (Some schema))).
Proof.
  destruct (first_failure server 0 15) as [Hf|(k & Hk & E & Hj)].
  2:{ rewrite (run_failed server schema k Hk Hj E). now apply EndFailed. }
  destruct (latest server None 0 15) as [resp|] eqn:El.
  2:{ pose proof (latest_none server 0 15 Hf El) as Hr. cbn in Hr.
      rewrite (run_never_connected server schema Hr). now apply EndUnbound. }
  assert (Hc : connects_with server resp).
  { split; [exact Hf | now apply (latest_spec server 0 15 resp Hf)]. }
  destruct (decoded resp) as [message|] eqn:Hd.
  2:{ rewrite (run_undecodable server schema resp Hc Hd).
      now apply EndUndecodable with (resp := resp). }
  destruct (py_in (lit "errors") message) as [e|[|]] eqn:He.
  - rewrite (run_type_error server schema resp message e Hc Hd He).
    now apply EndTypeError with (resp := resp) (message := message).
  - destruct (first_rejection server 15 15) as [Hacc|(k & Hk & [E|E] & Hj)].
    + destruct (Hacc 14) as [resp' E29]; [lia|]. cbn in E29.
      destruct (decoded resp') as [body'|] eqn:Hd'.
      * rewrite (run_busy server schema resp message resp' body'
                   Hc Hd He Hacc E29 Hd').
        now apply EndBusy with (resp := resp) (message := message).
      * rewrite (run_report_undecodable server schema resp message resp'
                   Hc Hd He Hacc E29 Hd').
        now apply EndReportUndecodable with (resp := resp) (message := message).
    + rewrite (run_dropped server schema resp message k Hc Hd He Hk Hj E).
      now apply EndDropped with (resp := resp) (message := message).
    + rewrite (run_poll_failed server schema resp message k Hc Hd He Hk Hj E).
      now apply EndPollFailed with (resp := resp) (message := message).
  - rewrite (run_quiet server schema resp message Hc Hd He).
    now apply EndQuiet.
Qed.

Lemma refusals_all (server : nat -> reply) (a n : nat) :
  (forall k, k < n -> server (a + k) = Refuse) -> refusals server a n = n.
Proof.
  induction n as [|n IH]; intros H; [reflexivity|].
  rewrite refusals_S, (H n) by lia. cbn [is_refuse].
  rewrite IH by (intros; apply H; lia). lia.
Qed.

Lemma connected_seconds (server : nat -> reply) (q : str) :
  (forall k, k < 15 -> server k <> Fail) ->
  sleep_seconds (log (world_connected server q)) = refusals server 0 15.
Proof.
  intros H. cbn [world_connected log sleep_seconds].
  now apply connect_log_sleeps.
Qed.

Lemma connected_posts_only (server : nat -> reply) (q : str) :
  posts_only q (log (world_connected server q)).
Proof.
  cbn [world_connected log].
  change (posts_only q ([Print (PStr q)] ++
            flat_map (fun k => connect_events q (server k)) (seq 0 15))).
  apply posts_only_app; [now apply posts_only_prints|].
  apply posts_only_flat_map. intros; apply posts_only_connect.
Qed.

Lemma connects_with_refusals (server : nat -> reply) (resp : Response) :
  connects_with server resp -> refusals server 0 15 <= 14.
Proof.
  intros [_ (k & Hk & E & _)].
  pose proof (refusals_lt server 0 15 k resp Hk E). lia.
Qed.

(** X6: the first loop sleeps one second once for each refused connection
    and never otherwise, and it leaves [r] unbound exactly when all fifteen
    connections are refused. *)
Theorem connection_loop_waits_once_per_refusal
    (server : nat -> reply) (q : str) (w : world) :
  (forall k, k < 15 -> server (sent w + k) <> Fail) ->
  exists r w',
    connection_loop server q w = (Ok r, w') /\
    count_sleeps 1 (log w') =
      count_sleeps 1 (log w) + refusals server (sent w) 15 /\
    sleep_seconds (log w') =
      sleep_seconds (log w) + refusals server (sent w) 15 /\
    (r = None <-> refusals server (sent w) 15 = 15).
Proof.
  intros H. do 2 eexists. split; [now apply connection_loop_spec|].
  cbn [log]. rewrite count_sleeps_app, sleep_seconds_app.
  destruct (connect_log_sleeps server q (sent w) 15 H) as (-> & -> & _).
  repeat split.
  - intros E. apply refusals_all. now apply latest_none.
  - intros E. destruct (latest server None (sent w) 15) as [resp|] eqn:El;
      [|reflexivity].
    apply latest_spec in El as (k & Hk & Ek & _); [|exact H].
    pose proof (refusals_lt server (sent w) 15 k resp Hk Ek). lia.
Qed.

Lemma connection_loop_waits_once_per_refusal_witness :
  exists r w',
    connection_loop (server_refuses_first 2) (buildMutation schema_one_line)
      {| sent := 0; log := [] |} = (Ok r, w') /\
    count_sleeps 1 (log w') = 2 /\
    sleep_seconds (log w') = 2 /\
    (r = None <-> refusals (server_refuses_first 2) 0 15 = 15).
Proof.
  apply (connection_loop_waits_once_per_refusal (server_refuses_first 2)
           (buildMutation schema_one_line) {| sent := 0; log := [] |}).
  intros k Hk. cbn [sent Nat.add]. unfold server_refuses_first.
  destruct (k <? 2); discriminate.
Defined.

(** X7: an exception of requests.post other than a connection error is not
    caught by the first loop: the run ends at that POST, with no wait after
    it, no later POST and no report. *)
Theorem first_loop_other_exception_is_unhandled
    (server : nat -> reply) (schema : str) (k : nat) :
  k < 15 ->
  (forall j, j < k -> server j <> Fail) ->
  server k = Fail ->
  exists w before,
    run server (Some schema) = (Raise RequestException, w) /\
    log w = before ++ [Post url (buildMutation schema)] /\
    sent w = k + 1 /\
    count_posts (log w) = k + 1 /\
    sleep_seconds (log w) = refusals server 0 k /\
    reports (log w) = [].
Proof.
  intros Hk Hj E. do 2 eexists. split; [exact (run_failed server schema k Hk Hj E)|].
  cbn [sent log]. split; [now rewrite app_comm_cons|].
  split; [reflexivity|].
  change (Print (PStr (buildMutation schema)) :: ?l)
    with ([Print (PStr (buildMutation schema))] ++ l).
  rewrite !count_posts_app, !sleep_seconds_app, !reports_app.
  rewrite connect_log_posts, connect_log_reports.
  destruct (connect_log_sleeps server (buildMutation schema) 0 k Hj)
    as (-> & _).
  cbn. repeat split; lia.
Qed.

Lemma first_loop_other_exception_is_unhandled_witness :
  exists w before,
    run (server_fails_at 3) (Some schema_one_line)
      = (Raise RequestException, w) /\
    log w = before ++ [Post url (buildMutation schema_one_line)] /\
    sent w = 3 + 1 /\
    count_posts (log w) = 3 + 1 /\
    sleep_seconds (log w) = refusals (server_fails_at 3) 0 3 /\
    reports (log w) = [].
Proof.
  apply (first_loop_other_exception_is_unhandled (server_fails_at 3)
           schema_one_line 3).
  - lia.
  - intros j Hj. unfold server_fails_at.
    destruct (Nat.eqb_spec j 3) as [E|_]; [lia | discriminate].
  - reflexivity.
Defined.

(** X8: if the body of the reply left by the first loop is not JSON, the run
    ends on line 32 with an unhandled JSONDecodeError: the second loop does
    not start and nothing is reported. *)
Theorem undecodable_body_ends_before_polling
    (server : nat -> reply) (schema : str) (resp : Response) :
  connects_with server resp -> decoded resp = None ->
  exists w,
    run server (Some schema) = (Raise JSONDecodeError, w) /\
    sent w = 15 /\
    count_posts (log w) = 15 /\
    count_sleeps 3 (log w) = 0 /\
    reports (log w) = [].
Proof.
  intros Hc Hd. eexists. split; [now apply run_undecodable with (resp := resp)|].
  rewrite connected_posts, connected_sleeps3, connected_reports. auto.
Qed.

Lemma undecodable_body_ends_before_polling_witness :
  exists w,
    run (server_always response_html) (Some schema_one_line)
      = (Raise JSONDecodeError, w) /\
    sent w = 15 /\
    count_posts (log w) = 15 /\
    count_sleeps 3 (log w) = 0 /\
    reports (log w) = [].
Proof.
  apply (undecodable_body_ends_before_polling (server_always response_html)
           schema_one_line response_html).
  - apply connects_with_accepting; [intros; eexists|]; reflexivity.
  - reflexivity.
Defined.

(** X9: if the decoded body is null, a boolean or a number, the test of line
    35 raises TypeError at the first iteration: the run ends there, without
    any re-POST and without report. *)
Theorem scalar_body_ends_in_TypeError
    (server : nat -> reply) (schema : str) (resp : Response)
    (message : json) :
  connects_with server resp -> decoded resp = Some message ->
  is_container message = false ->
  exists w,
    run server (Some schema) = (Raise TypeError, w) /\
    sent w = 15 /\
    count_posts (log w) = 15 /\
    count_sleeps 3 (log w) = 0 /\
    reports (log w) = [].
Proof.
  intros Hc Hd Hs. eexists. split.
  - apply run_type_error with (resp := resp) (message := message); auto.
    now destruct message.
  - rewrite connected_posts, connected_sleeps3, connected_reports. auto.
Qed.

Lemma scalar_body_ends_in_TypeError_witness :
  exists w,
    run (server_always {| status_code := 200; decoded := Some JNull |})
        (Some schema_one_line) = (Raise TypeError, w) /\
    sent w = 15 /\
    count_posts (log w) = 15 /\
    count_sleeps 3 (log w) = 0 /\
    reports (log w) = [].
Proof.
  apply (scalar_body_ends_in_TypeError
           (server_always {| status_code := 200; decoded := Some JNull |})
           schema_one_line {| status_code := 200; decoded := Some JNull |}
           JNull).
  - apply connects_with_accepting; [intros; eexists|]; reflexivity.
  - reflexivity.
  - reflexivity.
Defined.

Lemma str_eqb_refl (k : str) : str_eqb k k = true.
Proof.
  induction k as [|c k IH]; [reflexivity|].
  cbn [str_eqb]. now rewrite N.eqb_refl, IH.
Qed.

Lemma in_items_py_in (k : str) (items : list json) :
  In (JStr k) items -> py_in k (JArr items) = inr true.
Proof.
  intros H. cbn [py_in]. f_equal. apply existsb_exists.
  exists (JStr k). split; [exact H | apply str_eqb_refl].
Qed.

(** X10: the test of line 35 is Python's [in] on whatever the body decodes
    to.  A body that is a JSON string with the text errors anywhere in it,
    or a JSON array with the string "errors" among its elements, makes the
    second loop re-POST and wait fifteen times, as an object with the key
    does. *)
Theorem polling_loop_on_string_or_array_body
    (server : nat -> reply) (q : str) (message : json)
    (r : option Response) (w : world) :
  (forall k, k < 15 -> exists resp, server (sent w + k) = Accept resp) ->
  (exists s, message = JStr s /\ contains (lit "errors") s = true) \/
  (exists items, message = JArr items /\ In (JStr (lit "errors")) items) ->
  exists r' w',
    polling_loop server q message r w = (Ok r', w') /\
    count_posts (log w') = count_posts (log w) + 15 /\
    count_sleeps 3 (log w') = count_sleeps 3 (log w) + 15.
Proof.
  intros Hacc Hm.
  assert (He : py_in (lit "errors") message = inr true).
  { destruct Hm as [(s & -> & Hs)|(items & -> & Hi)].
    - cbn [py_in]. now rewrite Hs.
    - now apply in_items_py_in. }
  do 2 eexists. split.
  - unfold polling_loop, for_range. change (15 - 0) with 15.
    now apply poll_loop_busy.
  - cbn [log]. rewrite count_posts_app, count_sleeps_app.
    rewrite poll_events_posts, poll_events_sleeps, length_seq. auto.
Qed.

Lemma polling_loop_on_string_or_array_body_witness :
  exists r' w',
    polling_loop server_ready (buildMutation schema_one_line)
      (JStr (lit "no errors")) None {| sent := 15; log := [] |} = (Ok r', w') /\
    count_posts (log w') = 15 /\
    count_sleeps 3 (log w') = 15.
Proof.
  apply (polling_loop_on_string_or_array_body server_ready
           (buildMutation schema_one_line) (JStr (lit "no errors")) None
           {| sent := 15; log := [] |}).
  - intros k Hk. exists response_installed. reflexivity.
  - left. exists (lit "no errors"). split; reflexivity.
Defined.

(** X11: if the second loop runs to its end and the body of the reply to the
    last re-POST is not JSON, the run prints that response on line 41 and
    ends on line 42 with an unhandled JSONDecodeError, no body printed. *)
Theorem undecodable_last_body_prints_response_only
    (server : nat -> reply) (schema : str) (resp : Response)
    (message : json) (resp' : Response) :
  connects_with server resp -> decoded resp = Some message ->
  has_key (lit "errors") message = true ->
  (forall k, k < 15 -> exists r', server (15 + k) = Accept r') ->
  server 29 = Accept resp' -> decoded resp' = None ->
  exists w,
    run server (Some schema) = (Raise JSONDecodeError, w) /\
    sent w = 30 /\
    count_sleeps 3 (log w) = 15 /\
    reports (log w) = [PResponse resp'].
Proof.
  intros Hc Hd Hk Hacc E29 Hd'. eexists. split.
  - apply run_report_undecodable with (resp := resp) (message := message)
                                      (resp' := resp'); auto.
    now apply has_key_py_in.
  - cbn [sent log]. rewrite !count_sleeps_app, !reports_app.
    rewrite connected_sleeps3, connected_reports.
    rewrite poll_events_sleeps, poll_events_reports, length_seq. auto.
Qed.

Lemma undecodable_last_body_prints_response_only_witness :
  exists w,
    run (server_breaks_at 29) (Some schema_one_line)
      = (Raise JSONDecodeError, w) /\
    sent w = 30 /\
    count_sleeps 3 (log w) = 15 /\
    reports (log w) = [PResponse response_html].
Proof.
  apply (undecodable_last_body_prints_response_only (server_breaks_at 29)
           schema_one_line response_errors body_errors response_html).
  - apply connects_with_accepting; [|reflexivity].
    intros n Hn. unfold server_breaks_at. destruct (n <? 29); eexists;
      reflexivity.
  - reflexivity.
  - reflexivity.
  - intros k Hk. unfold server_breaks_at. destruct (15 + k <? 29); eexists;
      reflexivity.
  - reflexivity.
  - reflexivity.
Defined.

Ltac split5 := split; [|split; [|split; [|split]]].
Ltac small :=
  cbn [count_posts sleep_seconds filter is_post List.length Nat.add Nat.mul].

Lemma ending_bounded (server : nat -> reply) (q : str) (o : outcome unit)
    (w : world) :
  ending server q o w ->
  sent w = count_posts (log w) /\
  count_posts (log w) <= 30 /\
  sleep_seconds (log w) <= 59 /\
  posts_only q (log w) /\
  exists l, log w = Print (PStr q) :: l.
Proof.
  assert (Hwc : forall resp, connects_with server resp ->
            sleep_seconds (log (world_connected server q)) <= 14).
  { intros resp Hc. rewrite connected_seconds by apply Hc.
    now apply connects_with_refusals with (resp := resp). }
  assert (Hp : count_posts (log (world_connected server q)) = 15).
  { cbn [world_connected log].
    change (count_posts ([Print (PStr q)] ++
              flat_map (fun k => connect_events q (server k)) (seq 0 15)) = 15).
    now rewrite count_posts_app, connect_log_posts. }
  pose proof (connected_posts_only server q) as Ho.
  assert (Hl : exists l, log (world_connected server q) = Print (PStr q) :: l)
    by (eexists; reflexivity).
  destruct 1 as [k Hk Hj E | Hr | resp Hc Hd | resp message e Hc Hd He
                | resp message Hc Hd He | resp message k Hc Hd He Hk Hacc E
                | resp message k Hc Hd He Hk Hacc E
                | resp message resp' Hc Hd He Hacc E Hd'
                | resp message resp' body' Hc Hd He Hacc E Hd'];
    cbn [sent]; try specialize (Hwc resp Hc).
  - cbn [log].
    change (Print (PStr q) :: ?l) with ([Print (PStr q)] ++ l).
    rewrite !count_posts_app, !sleep_seconds_app, connect_log_posts.
    destruct (connect_log_sleeps server q 0 k Hj) as (-> & _).
    pose proof (refusals_le server 0 k). small. split5; try lia.
    + apply posts_only_app; [now apply posts_only_prints|].
      apply posts_only_app; [|apply posts_only_post].
      apply posts_only_flat_map. intros; apply posts_only_connect.
    + eexists; reflexivity.
  - rewrite Hp. split5; auto; try lia.
    rewrite connected_seconds by (intros k Hk; rewrite (Hr k Hk); discriminate).
    pose proof (refusals_le server 0 15). lia.
  - rewrite Hp. split5; auto; lia.
  - rewrite Hp. split5; auto; lia.
  - cbn [log]. rewrite count_posts_app, sleep_seconds_app, Hp.
    small. split5; try lia.
    + apply posts_only_app; [exact Ho | now apply posts_only_prints].
    + destruct Hl as [l ->]. eexists. reflexivity.
  - cbn [log]. rewrite !count_posts_app, !sleep_seconds_app, Hp.
    rewrite poll_events_posts, poll_log_seconds, length_seq.
    small. split5; try lia.
    + apply posts_only_app; [exact Ho|].
      apply posts_only_app; [|apply posts_only_post].
      apply posts_only_flat_map. intros; apply posts_only_poll.
    + destruct Hl as [l ->]. eexists. reflexivity.
  - cbn [log]. rewrite !count_posts_app, !sleep_seconds_app, Hp.
    rewrite poll_events_posts, poll_log_seconds, length_seq.
    small. split5; try lia.
    + apply posts_only_app; [exact Ho|].
      apply posts_only_app; [|apply posts_only_post].
      apply posts_only_flat_map. intros; apply posts_only_poll.
    + destruct Hl as [l ->]. eexists. reflexivity.
  - cbn [log]. rewrite !count_posts_app, !sleep_seconds_app, Hp.
    rewrite poll_events_posts, poll_log_seconds, length_seq.
    small. split5; try lia.
    + apply posts_only_app; [exact Ho|].
      apply posts_only_app; [|now apply posts_only_prints].
      apply posts_only_flat_map. intros; apply posts_only_poll.
    + destruct Hl as [l ->]. eexists. reflexivity.
  - cbn [log]. rewrite !count_posts_app, !sleep_seconds_app, Hp.
    rewrite poll_events_posts, poll_log_seconds, length_seq.
    small. split5; try lia.
    + apply posts_only_app; [exact Ho|].
      apply posts_only_app; [|now apply posts_only_prints].
      apply posts_only_flat_map. intros; apply posts_only_poll.
    + destruct Hl as [l ->]. eexists. reflexivity.
Qed.

(** X12: whatever the endpoint does, a run sends at most 30 POSTs and sleeps
    at most 59 seconds in all; [sent] counts exactly the POSTs of the log;
    with a readable schema file the payload is printed first and every POST
    goes to the admin URL with that same payload; without one the run ends
    with an unhandled OSError before anything is printed or sent.  Both
    bounds are reached, by an endpoint that refuses fourteen connections and
    then answers with errors. *)
Theorem run_is_bounded (server : nat -> reply) (schema_file : option str) :
  sent (snd (run server schema_file))
    = count_posts (log (snd (run server schema_file))) /\
  count_posts (log (snd (run server schema_file))) <= 30 /\
  sleep_seconds (log (snd (run server schema_file))) <= 59 /\
  match schema_file with
  | Some schema =>
      posts_only (buildMutation schema) (log (snd (run server schema_file))) /\
      exists l, log (snd (run server schema_file))
                = Print (PStr (buildMutation schema)) :: l
  | None => run server schema_file = (Raise OSError, {| sent := 0; log := [] |})
  end /\
  count_posts (log (snd (run server_slowest (Some schema_one_line)))) = 30 /\
  sleep_seconds (log (snd (run server_slowest (Some schema_one_line)))) = 59.
Proof.
  assert (Hreached :
    count_posts (log (snd (run server_slowest (Some schema_one_line)))) = 30 /\
    sleep_seconds (log (snd (run server_slowest (Some schema_one_line)))) = 59)
    by (split; vm_compute; reflexivity).
  destruct Hreached as [Hp Hs].
  destruct schema_file as [schema|].
  - destruct (ending_bounded _ _ _ _ (run_ending server schema))
      as (H1 & H2 & H3 & H4 & H5).
    split; [exact H1|]. split; [exact H2|]. split; [exact H3|].
    split; [split; [exact H4 | exact H5]|]. split; [exact Hp | exact Hs].
  - change (run server None)
      with (@Raise unit OSError, {| sent := 0; log := [] |}).
    cbn [snd sent log].
    split; [reflexivity|]. split; [apply Nat.le_0_l|].
    split; [apply Nat.le_0_l|]. split; [reflexivity|].
    split; [exact Hp | exact Hs].
Qed.

(** X13: a run with a readable schema file in which every call of
    requests.post returns a response or raises ends in one of the nine ways
    of [ending], with the result and the log given there.  The script sets no
    timeout: a call that never returns is no [reply], and a run blocked in
    one is outside this statement. *)
Theorem run_ends_in_one_of_nine_ways (server : nat -> reply) (schema : str) :
  ending server (buildMutation schema)
    (fst (run server (Some schema))) (snd (run server (Some schema))).
Proof. apply run_ending. Qed.

(** X14: a run that ends normally has sent 15 or 30 POSTs, and what it
    reports is the reply to the last POST that was accepted, with its decoded
    body; after 15 POSTs that body passes the test of line 35, after 30 it is
    the reply to the last re-POST, whatever it holds. *)
Theorem normal_end_reports_last_accepted_reply
    (server : nat -> reply) (schema_file : option str) (w : world) :
  run server schema_file = (Ok tt, w) ->
  exists schema resp body k,
    schema_file = Some schema /\
    (sent w = 15 \/ sent w = 30) /\
    k < sent w /\ server k = Accept resp /\
    (forall j, k < j < sent w -> server j = Refuse) /\
    decoded resp = Some body /\
    reports (log w) = [PResponse resp; PJson body] /\
    (sent w = 15 -> py_in (lit "errors") body = inr false) /\
    (sent w = 30 -> k = 29).
Proof.
  destruct schema_file as [schema|]; [|discriminate].
  intros Hrun. pose proof (run_ending server schema) as He.
  rewrite Hrun in He. cbn [fst snd] in He.
  remember (Ok tt) as o eqn:Ho.
  destruct He as [ | | | | resp message Hc Hd Hin | | |
                 | resp message resp' body' Hc Hd Hin Hacc E Hd'];
    try discriminate.
  - destruct Hc as [_ (k & Hk & Ek & Hj)].
    exists schema, resp, message, k. cbn [sent log].
    rewrite reports_app, connected_reports.
    repeat split; auto; lia.
  - exists schema, resp', body', 29. cbn [sent log].
    rewrite !reports_app, connected_reports, poll_events_reports.
    repeat split; auto; lia.
Qed.

Lemma normal_end_reports_last_accepted_reply_witness :
  exists schema resp body k,
    Some schema_one_line = Some schema /\
    (sent (snd (run (server_refuses_first 2) (Some schema_one_line))) = 15 \/
     sent (snd (run (server_refuses_first 2) (Some schema_one_line))) = 30) /\
    k < sent (snd (run (server_refuses_first 2) (Some schema_one_line))) /\
    server_refuses_first 2 k = Accept resp /\
    (forall j,
       k < j < sent (snd (run (server_refuses_first 2) (Some schema_one_line)))
       -> server_refuses_first 2 j = Refuse) /\
    decoded resp = Some body /\
    reports (log (snd (run (server_refuses_first 2) (Some schema_one_line))))
      = [PResponse resp; PJson body] /\
    (sent (snd (run (server_refuses_first 2) (Some schema_one_line))) = 15 ->
     py_in (lit "errors") body = inr false) /\
    (sent (snd (run (server_refuses_first 2) (Some schema_one_line))) = 30 ->
     k = 29).
Proof.
  apply (normal_end_reports_last_accepted_reply (server_refuses_first 2)
           (Some schema_one_line)
           (snd (run (server_refuses_first 2) (Some schema_one_line)))).
  vm_compute. reflexivity.
Defined.

(** X15: a run that ends by an exception prints nothing of the final report,
    except the response alone when it is the decoding of the last body, on
    line 42, that fails. *)
Theorem abnormal_end_prints_no_body
    (server : nat -> reply) (schema_file : option str) (e : exn) (w : world) :
  run server schema_file = (Raise e, w) ->
  reports (log w) = [] \/
  exists resp, server 29 = Accept resp /\ decoded resp = None /\
               e = JSONDecodeError /\ sent w = 30 /\
               reports (log w) = [PResponse resp].
Proof.
  destruct schema_file as [schema|]; [|intros [= <- <-]; now left].
  intros Hrun. pose proof (run_ending server schema) as He.
  rewrite Hrun in He. cbn [fst snd] in He.
  remember (Raise e) as o eqn:Ho.
  destruct He as [k Hk Hj E | Hr | resp Hc Hd | resp message e' Hc Hd Hin
                 | | resp message k Hc Hd Hin Hk Hacc E
                 | resp message k Hc Hd Hin Hk Hacc E
                 | resp message resp' Hc Hd Hin Hacc E Hd' | ];
    try discriminate; cbn [log];
    try (left; rewrite ?reports_app, ?connected_reports,
           ?poll_events_reports; reflexivity).
  - left. change (Print (PStr (buildMutation schema)) :: ?l)
      with ([Print (PStr (buildMutation schema))] ++ l).
    rewrite !reports_app, connect_log_reports. reflexivity.
  - right. exists resp'. injection Ho as <-.
    rewrite !reports_app, connected_reports, poll_events_reports. auto.
Qed.

Lemma abnormal_end_prints_no_body_witness :
  reports (log (snd (run (server_breaks_at 29) (Some schema_one_line)))) = [] \/
  exists resp, server_breaks_at 29 29 = Accept resp /\ decoded resp = None /\
               JSONDecodeError = JSONDecodeError /\
               sent (snd (run (server_breaks_at 29) (Some schema_one_line)))
                 = 30 /\
               reports (log (snd (run (server_breaks_at 29)
                                      (Some schema_one_line))))
                 = [PResponse resp].
Proof.
  apply (abnormal_end_prints_no_body (server_breaks_at 29)
           (Some schema_one_line) JSONDecodeError
           (snd (run (server_breaks_at 29) (Some schema_one_line)))).
  vm_compute. reflexivity.
Defined.

Lemma no_double_space_repeat (c : codepoint) (n : nat) :
  N.eqb SP c = false -> no_double_space (repeat c n) = true.
Proof.
  intros H. induction n as [|n IH]; [reflexivity|].
  cbn [repeat no_double_space]. destruct (repeat c n) eqn:E; [reflexivity|].
  now rewrite H, IH.
Qed.

Lemma tabs_to_spaces (n : nat) :
  replace [TAB] [SP] (repeat TAB n) = repeat SP n.
Proof.
  induction n as [|n IH]; [reflexivity|].
  cbn [repeat]. now rewrite replace_single_cons_same, IH.
Qed.

Lemma collapse_ws_tabs (n : nat) :
  collapse_ws (repeat TAB n) = repeat SP (Nat.div2 (S n)).
Proof.
  unfold collapse_ws.
  rewrite (replace_single_absent NL [] (repeat TAB n))
    by now apply mem_repeat.
  rewrite (squeeze_clean (repeat TAB n))
    by now apply no_double_space_repeat.
  rewrite tabs_to_spaces. apply squeeze_repeat.
Qed.

(** X16: tabs are turned into spaces after the first squeeze of doubled
    spaces, so only the second one acts on them: a run of [n] tabs between
    two characters that are no whitespace comes out as n/2 spaces, rounded
    up, where as many spaces would leave n/4. *)
Theorem collapse_ws_tab_run (x y : str) (c d : codepoint) (n : nat) :
  is_ws c = false -> is_ws d = false ->
  collapse_ws (x ++ c :: repeat TAB n ++ d :: y) =
  collapse_ws x ++ c :: repeat SP ((n + 1) / 2) ++ d :: collapse_ws y.
Proof.
  intros Hc Hd.
  apply is_ws_false in Hc as (Hc1 & Hc2 & Hc3).
  apply is_ws_false in Hd as (Hd1 & Hd2 & Hd3).
  rewrite collapse_ws_app_sep by assumption.
  rewrite collapse_ws_app_sep by assumption.
  rewrite collapse_ws_tabs, Nat.div2_div.
  now replace (S n) with (n + 1) by lia.
Qed.

Lemma collapse_ws_tab_run_witness :
  collapse_ws (lit "type" ++ 123%N :: repeat TAB 3 ++ 125%N :: lit "") =
  lit "type" ++ 123%N :: repeat SP 2 ++ 125%N :: lit "".
Proof.
  apply (collapse_ws_tab_run (lit "type") (lit "") 123%N 125%N 3);
    reflexivity.
Defined.

(** ** Whitespace runs through the replace chain *)

Lemma replace_newline_filter (s : str) :
  replace [NL] [] s = filter (fun a => negb (N.eqb NL a)) s.
Proof.
  rewrite replace_single. induction s as [|a s IH]; [reflexivity|].
  cbn [flat_map filter]. rewrite IH. now destruct (N.eqb NL a).
Qed.

Lemma length_replace_char (c d : codepoint) (s : str) :
  List.length (replace [c] [d] s) = List.length s.
Proof.
  rewrite replace_single. induction s as [|a s IH]; [reflexivity|].
  cbn [flat_map]. rewrite length_app, IH. now destruct (N.eqb c a).
Qed.

Lemma all_spaces_repeat (l : str) :
  (forall c, In c l -> c = SP) -> l = repeat SP (List.length l).
Proof.
  induction l as [|a l IH]; intros H; [reflexivity|].
  cbn [List.length repeat]. rewrite <- IH by (intros; apply H; now right).
  now rewrite (H a) by now left.
Qed.

Lemma squeeze_nonempty (s : str) :
  s <> [] -> replace [SP; SP] [SP] s <> [].
Proof.
  destruct s as [|a [|b s]]; [congruence | now rewrite squeeze_one |].
  intros _. destruct (N.eqb SP a && N.eqb SP b) eqn:E.
  - now rewrite (squeeze_pair _ _ _ E).
  - now rewrite (squeeze_other _ _ _ E).
Qed.

Lemma is_ws_space (c : codepoint) :
  is_ws c = true -> c <> NL -> c <> TAB -> c = SP.
Proof.
  unfold is_ws. intros H Hn Ht.
  apply orb_true_iff in H as [H|H]; [apply orb_true_iff in H as [H|H]|];
    apply N.eqb_eq in H; congruence.
Qed.

(** A string of newlines, tabs and spaces comes out as spaces only, at most
    half as many, rounded up, as it has tabs and spaces, and at least one if
    it has any. *)
Lemma collapse_ws_whitespace (w : str) :
  forallb is_ws w = true ->
  exists m,
    collapse_ws w = repeat SP m /\
    m <= (List.length (filter (fun a => negb (N.eqb NL a)) w) + 1) / 2 /\
    (1 <= List.length (filter (fun a => negb (N.eqb NL a)) w) -> 1 <= m).
Proof.
  intros Hw. unfold collapse_ws.
  set (a := replace [NL] [] w).
  set (b := replace [SP; SP] [SP] a).
  set (c := replace [TAB] [SP] b).
  assert (Ha : forall x, In x a -> is_ws x = true /\ x <> NL).
  { intros x Hx. split.
    - apply replace_single_In in Hx as [[]|Hx].
      rewrite forallb_forall in Hw. now apply Hw.
    - intros ->. revert Hx. apply replace_single_removes. auto. }
  assert (Hc : forall x, In x c -> x = SP).
  { intros x Hx. destruct (N.eq_dec x TAB) as [->|Ht].
    - exfalso. revert Hx. apply replace_single_removes.
      intros [H|[]]. discriminate.
    - apply replace_single_In in Hx as [[Hx|[]]|Hx]; [now symmetry|].
      apply squeeze_In in Hx. destruct (Ha x Hx) as [Hws Hn].
      now apply is_ws_space. }
  assert (Lc : List.length c = List.length b) by apply length_replace_char.
  assert (La : List.length a
               = List.length (filter (fun a => negb (N.eqb NL a)) w))
    by (unfold a; now rewrite replace_newline_filter).
  assert (Lb : List.length b <= List.length a) by apply length_squeeze.
  assert (Nb : a <> [] -> b <> []) by apply squeeze_nonempty.
  clearbody c b a.
  exists (Nat.div2 (S (List.length b))).
  rewrite (all_spaces_repeat c Hc), Lc, squeeze_repeat.
  split; [reflexivity|]. rewrite <- La. split.
  - rewrite Nat.div2_div. apply Nat.Div0.div_le_mono. lia.
  - intros Hk. assert (Hb : b <> []).
    { apply Nb. intros E. subst a. cbn [List.length] in Hk. lia. }
    destruct b as [|x b']; [congruence|]. cbn. apply le_n_S, Nat.le_0_l.
Qed.

(** C5 (amended): in the whitespace-collapsing step newlines are deleted, not
    turned into spaces, and tabs and doubled spaces are squeezed toward single
    spaces.  A newline leaves nothing behind; the output has no newline and no
    tab, and its other characters are those of the input, in order.  A run of
    newlines, tabs and spaces between two characters that are no whitespace
    comes out as spaces only: none if the run is newlines only, otherwise at
    least one and at most half as many, rounded up, as the run has tabs and
    spaces, so that a single tab and a doubled space each become one space.
    A run of n spaces alone leaves n/4 of them, rounded up, and a run of n
    tabs n/2 spaces, rounded up. *)
Theorem collapse_ws_deletes_newlines_squeezes_runs :
  (forall x y : str, collapse_ws (x ++ NL :: y) = collapse_ws (x ++ y)) /\
  (forall s : str,
     mem NL (collapse_ws s) = false /\ mem TAB (collapse_ws s) = false /\
     non_ws (collapse_ws s) = non_ws s /\
     forall c, In c (collapse_ws s) -> c = SP \/ In c s) /\
  (forall (x y w : str) (c d : codepoint),
     is_ws c = false -> is_ws d = false -> forallb is_ws w = true ->
     exists m,
       collapse_ws (x ++ c :: w ++ d :: y) =
         collapse_ws x ++ c :: repeat SP m ++ d :: collapse_ws y /\
       m <= (List.length (filter (fun a => negb (N.eqb NL a)) w) + 1) / 2 /\
       (1 <= List.length (filter (fun a => negb (N.eqb NL a)) w) -> 1 <= m)) /\
  (forall n, collapse_ws (repeat SP n) = repeat SP ((n + 3) / 4)) /\
  (forall n, collapse_ws (repeat TAB n) = repeat SP ((n + 1) / 2)).
Proof.
  split; [apply collapse_ws_newline_tab_free|].
  split.
  { intros s.
    destruct (proj2 collapse_ws_newline_tab_free s) as (Hn & Ht & Hin).
    repeat split; auto. apply non_ws_collapse_ws. }
  split.
  { intros x y w c d Hc Hd Hw.
    apply is_ws_false in Hc as (Hc1 & Hc2 & Hc3).
    apply is_ws_false in Hd as (Hd1 & Hd2 & Hd3).
    destruct (collapse_ws_whitespace w Hw) as (m & Em & Hle & Hge).
    exists m. split; [|split; assumption].
    rewrite collapse_ws_app_sep by assumption.
    rewrite collapse_ws_app_sep by assumption.
    now rewrite Em. }
  split; [apply collapse_ws_repeat|].
  intros n. rewrite collapse_ws_tabs, Nat.div2_div.
  now replace (S n) with (n + 1) by lia.
Qed.

Lemma collapse_ws_deletes_newlines_squeezes_runs_witness :
  exists m,
    collapse_ws (lit "a" ++ 123%N :: [SP; TAB; NL; SP] ++ 125%N :: lit "b") =
      collapse_ws (lit "a") ++ 123%N :: repeat SP m ++ 125%N ::
      collapse_ws (lit "b") /\
    m <= (List.length (filter (fun a => negb (N.eqb NL a)) [SP; TAB; NL; SP])
          + 1) / 2 /\
    (1 <= List.length (filter (fun a => negb (N.eqb NL a)) [SP; TAB; NL; SP])
     -> 1 <= m).
Proof.
  apply (proj1 (proj2 (proj2 collapse_ws_deletes_newlines_squeezes_runs))
           (lit "a") (lit "b") [SP; TAB; NL; SP] 123%N 125%N);
    reflexivity.
Defined.
